(** * Accept-header normalisation (vmod_acceptnorm.c): a shallow embedding

    The C module parses an [Accept] header into (media type, quality)
    entries and offers canonicalize / filter / best_match / prefer /
    quality / accepts on top.  This file embeds the functions of
    [src/vmod/vmod_acceptnorm.c] as Rocq functions and proves properties of
    them.

    Conventions.
    - A C string ([const char *], NUL terminated) is a [string]; the
      terminator is the end of the Rocq string.  A pointer into a string is
      the suffix it points at.  A [VCL_STRING] that may be [NULL] is an
      [option string].  What is proved of every [string] holds of the C
      strings, which are those without a NUL inside.
    - A [double] is an IEEE-754 binary64 value, [spec_float] with
      [prec = 53] and [emax = 1024]; the C comparisons are the IEEE ones
      (false as soon as one side is NaN).
    - [struct acceptnorm_state] is the list of its first [count] entries;
      the capacity [MAX_MEDIA_TYPES] is enforced where the C code tests it.
    - Workspace allocation ([WS_Copy], [strdup], [strndup]) is assumed to
      succeed: the copies are the strings themselves. *)

From Stdlib Require Import Bool Arith ZArith NArith Lia List Permutation.
From Stdlib Require Import Ascii String DecimalString.
From Stdlib Require Import SpecFloat.
Import ListNotations.

Open Scope string_scope.
Open Scope bool_scope.

(* ================================================================== *)
(** * The C library, as far as the module uses it *)
(* ================================================================== *)

Module LibC.

(** ** <ctype.h>, "C" locale *)

Definition code (c : ascii) : N := N_of_ascii c.

(** [isspace]: space, and the controls \t \n \v \f \r. *)
Definition isspace (c : ascii) : bool :=
  (code c =? 32)%N || ((9 <=? code c)%N && (code c <=? 13)%N).

Definition isupper (c : ascii) : bool :=
  (65 <=? code c)%N && (code c <=? 90)%N.

Definition tolower (c : ascii) : ascii :=
  if isupper c then ascii_of_N (code c + 32) else c.

Definition isdigit (c : ascii) : bool :=
  (48 <=? code c)%N && (code c <=? 57)%N.

Definition isalpha (c : ascii) : bool :=
  isupper c || ((97 <=? code c)%N && (code c <=? 122)%N).

(** ** <string.h> *)

(** [strcmp(a, b) == 0]. *)
Definition streq (a b : string) : bool := String.eqb a b.

(** The sign of [strcmp(a, b)]: bytes compare as [unsigned char]. *)
Definition strcmp (a b : string) : comparison := String.compare a b.

(** [strncmp(a, b, n) == 0]. *)
Fixpoint strneq (a b : string) (n : nat) : bool :=
  match n with
  | O => true
  | S n' =>
      match a, b with
      | EmptyString, EmptyString => true
      | String x a', String y b' => Ascii.eqb x y && strneq a' b' n'
      | _, _ => false
      end
  end.

(** [strchr(s, c)]: [None] for [NULL], otherwise the offset of the first
    occurrence together with the suffix the result points at. *)
Fixpoint strchr (s : string) (c : ascii) : option (nat * string) :=
  match s with
  | EmptyString => None
  | String x s' =>
      if Ascii.eqb x c then Some (O, s)
      else match strchr s' c with
           | Some (n, r) => Some (S n, r)
           | None => None
           end
  end.

(** [strndup(s, n)] / [strncpy(dst, s, n)] for [n <= strlen(s)]. *)
Fixpoint strndup (s : string) (n : nat) : string :=
  match n, s with
  | S n', String x s' => String x (strndup s' n')
  | _, _ => EmptyString
  end.

(** ** binary64 *)

Definition double := spec_float.

Definition prec : Z := 53.
Definition emax : Z := 1024.

Definition d_zero : double := S754_zero false.
Definition d_one : double := S754_finite false 4503599627370496 (-52).
Definition d_minus_one : double := S754_finite true 4503599627370496 (-52).

(** C's [a < b], [a > b], [a >= b] on doubles. *)
Definition dlt (a b : double) : bool := SFltb a b.
Definition dgt (a b : double) : bool := dlt b a.
Definition dge (a b : double) : bool := SFleb b a.

Definition is_nan (a : double) : bool :=
  match a with S754_nan => true | _ => false end.

(** Bitwise identity of two doubles (not the C [==]). *)
Definition same_double (a b : double) : bool :=
  match a, b with
  | S754_zero s, S754_zero t => Bool.eqb s t
  | S754_infinity s, S754_infinity t => Bool.eqb s t
  | S754_nan, S754_nan => true
  | S754_finite s m e, S754_finite t n f =>
      Bool.eqb s t && Pos.eqb m n && Z.eqb e f
  | _, _ => false
  end.

(** ** [strtod]

    The subject sequence is: optional white space, an optional sign, then
    the longest of
    - decimal digits with an optional radix point, and an optional
      exponent [e|E][sign]digits;
    - [0x|0X], hexadecimal digits with an optional radix point, and an
      optional binary exponent [p|P][sign]digits;
    - [inf] or [infinity], any case;
    - [nan] or [nan(n-char-sequence)], any case.
    The value is rounded to nearest, ties to even.  When no conversion is
    performed the result is zero and the end pointer is the start
    pointer. *)

Fixpoint skip_space (s : string) : string :=
  match s with
  | String c s' => if isspace c then skip_space s' else s
  | EmptyString => s
  end.

Definition digit_of (base : N) (c : ascii) : option N :=
  if isdigit c then Some (code c - 48)%N
  else if (base =? 16)%N then
    if (97 <=? code c)%N && (code c <=? 102)%N then Some (code c - 87)%N
    else if (65 <=? code c)%N && (code c <=? 70)%N then Some (code c - 55)%N
    else None
  else None.

(** Reads digits of [base]: accumulated value, number of digits read,
    remaining input. *)
Fixpoint read_digits (base : N) (s : string) (m : N) (n : nat)
  : N * nat * string :=
  match s with
  | String c s' =>
      match digit_of base c with
      | Some d => read_digits base s' (m * base + d)%N (S n)
      | None => (m, n, s)
      end
  | EmptyString => (m, n, s)
  end.

(** Digits with an optional radix point; at least one digit in all.
    Result: all digits as one integer, the number of digits after the
    point, remaining input. *)
Definition read_mantissa (base : N) (s : string) : option (N * nat * string) :=
  let '(m1, n1, s1) := read_digits base s 0%N O in
  match s1 with
  | String c s2 =>
      if Ascii.eqb c "." then
        let '(m2, n2, s3) := read_digits base s2 m1 O in
        if (n1 + n2 =? 0)%nat then None else Some (m2, n2, s3)
      else if (n1 =? 0)%nat then None else Some (m1, O, s1)
  | EmptyString => if (n1 =? 0)%nat then None else Some (m1, O, s1)
  end.

(** An optional exponent part introduced by [lo] or [up]; when it is
    absent or incomplete nothing is consumed and the exponent is 0. *)
Definition read_exponent (lo up : ascii) (s : string) : Z * string :=
  match s with
  | String c s1 =>
      if Ascii.eqb c lo || Ascii.eqb c up then
        let '(neg, s2) :=
          match s1 with
          | String d s2 =>
              if Ascii.eqb d "-" then (true, s2)
              else if Ascii.eqb d "+" then (false, s2)
              else (false, s1)
          | EmptyString => (false, s1)
          end in
        let '(e, n, s3) := read_digits 10 s2 0%N O in
        if (n =? 0)%nat then (0%Z, s)
        else ((if neg then - Z.of_N e else Z.of_N e)%Z, s3)
      else (0%Z, s)
  | EmptyString => (0%Z, s)
  end.

(** [m * 10^e], correctly rounded. *)
Definition of_decimal (neg : bool) (m : N) (e : Z) : double :=
  match m with
  | N0 => S754_zero neg
  | Npos p =>
      match e with
      | Zneg k =>
          SFdiv prec emax (S754_finite neg p 0)
                (S754_finite false (Pos.pow 10 k) 0)
      | _ => binary_normalize prec emax
               ((if neg then Zneg p else Zpos p) * 10 ^ e)%Z 0 neg
      end
  end.

(** [m * 2^e], correctly rounded. *)
Definition of_binary (neg : bool) (m : N) (e : Z) : double :=
  binary_normalize prec emax
    (if neg then (- Z.of_N m)%Z else Z.of_N m) e neg.

(** [s] starts with the lower-case literal [lit], ignoring case: the rest. *)
Fixpoint match_nocase (lit s : string) : option string :=
  match lit with
  | EmptyString => Some s
  | String l lit' =>
      match s with
      | String c s' =>
          if Ascii.eqb (tolower c) l then match_nocase lit' s' else None
      | EmptyString => None
      end
  end.

(** The [(n-char-sequence)] after [nan]: the input after the closing
    parenthesis; [s] is the input after the opening one. *)
Fixpoint read_nchars (s : string) : option string :=
  match s with
  | String c s' =>
      if Ascii.eqb c ")" then Some s'
      else if isdigit c || isalpha c || Ascii.eqb c "_" then read_nchars s'
      else None
  | EmptyString => None
  end.

Definition read_hex (neg : bool) (s : string) : option (double * string) :=
  match s with
  | String z (String x s1) =>
      if Ascii.eqb z "0" && Ascii.eqb (tolower x) "x" then
        match read_mantissa 16 s1 with
        | Some (m, nfrac, s2) =>
            let '(e, s3) := read_exponent "p" "P" s2 in
            Some (of_binary neg m (e - 4 * Z.of_nat nfrac), s3)
        | None => None
        end
      else None
  | _ => None
  end.

Definition read_dec (neg : bool) (s : string) : option (double * string) :=
  match read_mantissa 10 s with
  | Some (m, nfrac, s2) =>
      let '(e, s3) := read_exponent "e" "E" s2 in
      Some (of_decimal neg m (e - Z.of_nat nfrac), s3)
  | None => None
  end.

Definition read_inf (neg : bool) (s : string) : option (double * string) :=
  match match_nocase "inf" s with
  | Some s1 =>
      match match_nocase "inity" s1 with
      | Some s2 => Some (S754_infinity neg, s2)
      | None => Some (S754_infinity neg, s1)
      end
  | None => None
  end.

Definition read_nan (s : string) : option (double * string) :=
  match match_nocase "nan" s with
  | Some s1 =>
      match s1 with
      | String c s2 =>
          if Ascii.eqb c "(" then
            match read_nchars s2 with
            | Some s3 => Some (S754_nan, s3)
            | None => Some (S754_nan, s1)
            end
          else Some (S754_nan, s1)
      | EmptyString => Some (S754_nan, s1)
      end
  | None => None
  end.

Definition first_of {A} (a b : option A) : option A :=
  match a with Some _ => a | None => b end.

(** [strtod(nptr, &endptr)]: the value and [endptr]. *)
Definition strtod (nptr : string) : double * string :=
  let s0 := skip_space nptr in
  let '(neg, s1) :=
    match s0 with
    | String c s' =>
        if Ascii.eqb c "-" then (true, s')
        else if Ascii.eqb c "+" then (false, s')
        else (false, s0)
    | EmptyString => (false, s0)
    end in
  match first_of (read_hex neg s1)
          (first_of (read_dec neg s1)
             (first_of (read_inf neg s1) (read_nan s1))) with
  | Some r => r
  | None => (d_zero, nptr)
  end.

(** ** [printf("%.1f", x)]

    The exact binary value is rounded to one decimal, ties to even. *)

Definition dec_string (n : N) : string :=
  NilZero.string_of_uint (N.to_uint n).

(** [round (10 * m * 2^e)] to the nearest integer, ties to even. *)
Definition round_tenths (m : positive) (e : Z) : N :=
  match e with
  | Zneg k =>
      let d := Pos.pow 2 k in
      let n := (10 * Npos m)%N in
      let q := (n / Npos d)%N in
      let r := (n mod Npos d)%N in
      match (2 * r ?= Npos d)%N with
      | Lt => q
      | Gt => (q + 1)%N
      | Eq => if N.even q then q else (q + 1)%N
      end
  | _ => (10 * Npos m * 2 ^ Z.to_N e)%N
  end.

Definition sign_string (s : bool) : string := if s then "-" else "".

Definition printf_1f (x : double) : string :=
  match x with
  | S754_nan => "nan"
  | S754_infinity s => sign_string s ++ "inf"
  | S754_zero s => sign_string s ++ "0.0"
  | S754_finite s m e =>
      let t := round_tenths m e in
      sign_string s ++ dec_string (t / 10) ++ "." ++ dec_string (t mod 10)
  end.

End LibC.

Import LibC.

(* ================================================================== *)
(** * The module: data model *)
(* ================================================================== *)

Definition MAX_MEDIA_TYPES : nat := 64.

(** [struct media_type]. *)
Record media_type : Type := mk_media_type {
  type : string;      (* e.g. "text/html" *)
  quality : double    (* 0.0 to 1.0, default 1.0 *)
}.

(** [struct acceptnorm_state]: [types[0 .. count-1]]. *)
Definition acceptnorm_state := list media_type.

(* ================================================================== *)
(** * The module: parsing *)
(* ================================================================== *)

(** [skip_ws]. *)
Fixpoint skip_ws (p : string) : string :=
  match p with
  | String c p' => if isspace c then skip_ws p' else p
  | EmptyString => p
  end.

(** [while ( *p && !stop( *p)) p++]: the characters passed over and the
    position reached. *)
Fixpoint scan_until (stop : ascii -> bool) (p : string) : string * string :=
  match p with
  | String c p' =>
      if stop c then (EmptyString, p)
      else let '(tok, r) := scan_until stop p' in (String c tok, r)
  | EmptyString => (EmptyString, p)
  end.

(** [while (end > start && isspace( *(end - 1))) end--]: the token
    [start .. end) once trailing white space is dropped. *)
Fixpoint trim_end (tok : string) : string :=
  match tok with
  | EmptyString => EmptyString
  | String c tok' =>
      match trim_end tok' with
      | EmptyString => if isspace c then EmptyString else String c EmptyString
      | r => String c r
      end
  end.

(** [for (t = s; *t; t++) *t = tolower( *t)]. *)
Fixpoint lowercase (s : string) : string :=
  match s with
  | EmptyString => EmptyString
  | String c s' => String (tolower c) (lowercase s')
  end.

Definition is_semi_or_comma (c : ascii) : bool :=
  Ascii.eqb c ";" || Ascii.eqb c ",".

Definition is_eq_semi_or_comma (c : ascii) : bool :=
  Ascii.eqb c "=" || Ascii.eqb c ";" || Ascii.eqb c ",".

Definition is_comma (c : ascii) : bool := Ascii.eqb c ",".

(** [if (quality < 0.0) quality = 0.0; if (quality > 1.0) quality = 1.0]. *)
Definition clamp (q : double) : double :=
  let q := if dlt q d_zero then d_zero else q in
  if dgt q d_one then d_one else q.

(** The parameter loop of [parse_media_type], [while ( *p == ';') ...]:
    the quality in force and the position reached.  Every round consumes
    the semicolon it starts on, so [fuel] larger than the length of [p]
    is never used up ([parse_params_fuel]). *)
Fixpoint parse_params (fuel : nat) (p : string) (q : double)
  : double * string :=
  match fuel with
  | O => (q, p)
  | S fuel' =>
      match p with
      | String c p1 =>
          if Ascii.eqb c ";" then
            let param_start := skip_ws p1 in
            let '(name, p2) := scan_until is_eq_semi_or_comma param_start in
            match p2 with
            | String c2 p3 =>
                if Ascii.eqb c2 "=" then
                  match name with
                  | String n EmptyString =>
                      if Ascii.eqb (tolower n) "q" then
                        (* found q= *)
                        let '(v, p4) := strtod (skip_ws p3) in
                        parse_params fuel' p4 (clamp v)
                      else
                        let '(_, p4) := scan_until is_semi_or_comma p3 in
                        parse_params fuel' p4 q
                  | _ =>
                      (* other parameter: skip its value *)
                      let '(_, p4) := scan_until is_semi_or_comma p3 in
                      parse_params fuel' p4 q
                  end
                else parse_params fuel' p2 q
            | EmptyString => parse_params fuel' p2 q
            end
          else (q, p)
      | EmptyString => (q, p)
      end
  end.

(** [parse_media_type]: [None] is the [NULL] return; otherwise the type,
    the quality and the position after the entry. *)
Definition parse_media_type (p : string) : option (string * double * string) :=
  let p := skip_ws p in
  match p with
  | EmptyString => None
  | _ =>
      let '(tok, p) := scan_until is_semi_or_comma p in
      match trim_end tok with
      | EmptyString => None
      | ty =>
          let ty := lowercase ty in
          let '(q, p) := parse_params (S (String.length p)) p d_one in
          let p := skip_ws p in
          let p := match p with
                   | String c p' => if Ascii.eqb c "," then p' else p
                   | EmptyString => p
                   end in
          Some (ty, q, p)
      end
  end.

(** The loop of [parse_accept_header]; [room] is
    [MAX_MEDIA_TYPES - state->count]. *)
Fixpoint parse_entries (room : nat) (p : string) : acceptnorm_state :=
  match room with
  | O => []
  | S room' =>
      match p with
      | EmptyString => []
      | _ =>
          match parse_media_type p with
          | None => []
          | Some (ty, q, p') => mk_media_type ty q :: parse_entries room' p'
          end
      end
  end.

(** [parse_accept_header]: the state it leaves. *)
Definition parse_accept_header (header : option string) : acceptnorm_state :=
  match header with
  | None => []
  | Some h => parse_entries MAX_MEDIA_TYPES h
  end.

(** The loop of [parse_preferred_types]; [room] is [max_types - count].
    Every round consumes at least one character. *)
Fixpoint preferred_loop (fuel room : nat) (p : string) : list string :=
  match fuel, room with
  | S fuel', S room' =>
      match p with
      | EmptyString => []
      | _ =>
          let p := skip_ws p in
          match p with
          | EmptyString => []
          | _ =>
              let '(tok, p) := scan_until is_comma p in
              let p' := match p with
                        | String c r => if Ascii.eqb c "," then r else p
                        | EmptyString => p
                        end in
              match trim_end tok with
              | EmptyString => preferred_loop fuel' room p'
              | ty => lowercase ty :: preferred_loop fuel' room' p'
              end
          end
      end
  | _, _ => []
  end.

(** [parse_preferred_types(preferred, types, MAX_MEDIA_TYPES)]. *)
Definition parse_preferred_types (preferred : option string) : list string :=
  match preferred with
  | None => []
  | Some p => preferred_loop (S (String.length p)) MAX_MEDIA_TYPES p
  end.

(* ================================================================== *)
(** * The module: ranking and matching *)
(* ================================================================== *)

(** [media_type_cmp]: the sign of the result. *)
Definition media_type_cmp (a b : media_type) : comparison :=
  if dgt (quality a) (quality b) then Lt
  else if dlt (quality a) (quality b) then Gt
  else strcmp (type a) (type b).

(** [qsort] with [media_type_cmp].  C leaves the procedure and the order
    of elements that compare equal open; it is taken here as a stable
    insertion sort.  Without NaN and without distinct entries that compare
    equal every procedure gives this result ([qsort_any_procedure]). *)
Fixpoint qsort_insert (x : media_type) (l : list media_type) :=
  match l with
  | [] => [x]
  | y :: l' =>
      match media_type_cmp x y with
      | Gt => y :: qsort_insert x l'
      | _ => x :: l
      end
  end.

Fixpoint qsort (l : list media_type) : list media_type :=
  match l with
  | [] => []
  | x :: l' => qsort_insert x (qsort l')
  end.

(** [sort_media_types]. *)
Definition sort_media_types (state : acceptnorm_state) : acceptnorm_state :=
  match state with
  | _ :: _ :: _ => qsort state
  | _ => state
  end.

(** [media_type_match]. *)
Definition media_type_match (pattern ty : string) : bool :=
  if streq pattern "*/*" then true
  else
    match strchr pattern "/", strchr ty "/" with
    | Some (p_type_len, p_slash), Some (t_type_len, _) =>
        match p_slash with
        | String _ after =>
            if streq after "*" then
              (p_type_len =? t_type_len)%nat && strneq pattern ty p_type_len
            else streq pattern ty
        | EmptyString => streq pattern ty
        end
    | _, _ => streq pattern ty
    end.

(** The [type_prefix] buffer of [get_quality_for_type]; the empty string
    when it is left empty. *)
Definition type_prefix_of (ty : string) : string :=
  match strchr ty "/" with
  | Some (len, _) =>
      if (len <? 256 - 2)%nat then strndup ty len ++ "/*" else ""
  | None => ""
  end.

(** The scan of [get_quality_for_type] with its two trackers. *)
Fixpoint quality_scan (types : list media_type) (ty type_prefix : string)
    (wildcard_quality type_wildcard_quality : double) : double :=
  match types with
  | [] =>
      if dge type_wildcard_quality d_zero then type_wildcard_quality
      else if dge wildcard_quality d_zero then wildcard_quality
      else d_zero
  | e :: rest =>
      if streq (type e) ty then quality e
      else if streq (type e) "*/*" then
        quality_scan rest ty type_prefix (quality e) type_wildcard_quality
      else if negb (streq type_prefix "") && streq (type e) type_prefix then
        quality_scan rest ty type_prefix wildcard_quality (quality e)
      else
        quality_scan rest ty type_prefix wildcard_quality
                     type_wildcard_quality
  end.

(** [get_quality_for_type]. *)
Definition get_quality_for_type (state : acceptnorm_state) (ty : string)
  : double :=
  quality_scan state ty (type_prefix_of ty) d_minus_one d_minus_one.

(* ================================================================== *)
(** * The module: serialisation *)
(* ================================================================== *)

Definition entry_text (e : media_type) : string :=
  type e ++
  (if dlt (quality e) d_one then ";q=" ++ printf_1f (quality e) else "").

Fixpoint build_rest (l : list media_type) : string :=
  match l with
  | [] => ""
  | e :: l' => ", " ++ entry_text e ++ build_rest l'
  end.

(** [build_accept_string]. *)
Definition build_accept_string (state : acceptnorm_state) : string :=
  match state with
  | [] => ""
  | e :: l => entry_text e ++ build_rest l
  end.

(* ================================================================== *)
(** * The module: VMOD functions *)
(* ================================================================== *)

(** [s == NULL || *s == '\0']. *)
Definition absent (s : option string) : bool :=
  match s with
  | None => true
  | Some EmptyString => true
  | Some _ => false
  end.

Definition vmod_canonicalize (accept_header : option string) : string :=
  if absent accept_header then ""
  else build_accept_string
         (sort_media_types (parse_accept_header accept_header)).

(** The inner loop shared by [vmod_filter] and [vmod_best_match]: the
    largest quality of a header entry that matches [pref], from 0.0. *)
Fixpoint match_quality (types : list media_type) (pref : string) (q : double)
  : double :=
  match types with
  | [] => q
  | e :: rest =>
      if media_type_match (type e) pref then
        if dgt (quality e) q then match_quality rest pref (quality e)
        else match_quality rest pref q
      else match_quality rest pref q
  end.

(** The outer loop of [vmod_filter]; [room] is
    [MAX_MEDIA_TYPES - filtered.count]. *)
Fixpoint filter_loop (state : acceptnorm_state) (prefs : list string)
    (room : nat) : acceptnorm_state :=
  match prefs, room with
  | pref :: prefs', S room' =>
      let q := match_quality state pref d_zero in
      if dgt q d_zero then
        mk_media_type pref q :: filter_loop state prefs' room'
      else filter_loop state prefs' room
  | _, _ => []
  end.

Definition vmod_filter (accept_header preferred : option string) : string :=
  if absent preferred then vmod_canonicalize accept_header
  else if absent accept_header then
    match parse_preferred_types preferred with
    | first :: _ => first
    | [] => ""
    end
  else
    let state := parse_accept_header accept_header in
    let prefs := parse_preferred_types preferred in
    let filtered := filter_loop state prefs MAX_MEDIA_TYPES in
    let filtered :=
      match filtered, prefs with
      | [], first :: _ => [mk_media_type first d_one]
      | _, _ => filtered
      end in
    build_accept_string (sort_media_types filtered).

(** The outer loop of [vmod_best_match], carrying [best_type] and
    [best_quality]. *)
Fixpoint best_loop (state : acceptnorm_state) (prefs : list string)
    (best_type : option string) (best_quality : double) : option string :=
  match prefs with
  | [] => best_type
  | pref :: prefs' =>
      let q := match_quality state pref d_zero in
      if dgt q best_quality then best_loop state prefs' (Some pref) q
      else best_loop state prefs' best_type best_quality
  end.

Definition vmod_best_match (accept_header preferred : option string)
  : string :=
  match parse_preferred_types preferred with
  | [] => ""
  | (first :: _) as prefs =>
      if absent accept_header then first
      else
        let state := parse_accept_header accept_header in
        match best_loop state prefs None d_minus_one with
        | Some best => best
        | None => first
        end
  end.

(** The inner loop of [vmod_prefer]. *)
Fixpoint accepted_by (types : list media_type) (pref : string) : bool :=
  match types with
  | [] => false
  | e :: rest =>
      if media_type_match (type e) pref && dgt (quality e) d_zero then true
      else accepted_by rest pref
  end.

(** The outer loop of [vmod_prefer]: the preferred type returned from
    inside the loops, if any. *)
Fixpoint prefer_loop (state : acceptnorm_state) (prefs : list string)
  : option string :=
  match prefs with
  | [] => None
  | pref :: prefs' =>
      if accepted_by state pref then Some pref
      else prefer_loop state prefs'
  end.

Definition vmod_prefer (accept_header preferred : option string) : string :=
  match accept_header with
  | None => ""
  | Some EmptyString => ""
  | Some header =>
      match parse_preferred_types preferred with
      | [] => header
      | prefs =>
          match prefer_loop (parse_accept_header accept_header) prefs with
          | Some pref => pref
          | None => header
          end
      end
  end.

Definition vmod_quality (accept_header media_type : option string) : double :=
  if absent accept_header then d_zero
  else
    match media_type with
    | None => d_zero
    | Some EmptyString => d_zero
    | Some mt =>
        get_quality_for_type (parse_accept_header accept_header)
                             (lowercase mt)
    end.

Definition vmod_accepts (accept_header media_type : option string) : bool :=
  dgt (vmod_quality accept_header media_type) d_zero.

(* ================================================================== *)
(** * Notions used to state the properties *)
(* ================================================================== *)

(** The quality of the first entry of [state] whose type is [pat]. *)
Fixpoint first_seen (pat : string) (state : acceptnorm_state)
  : option double :=
  match state with
  | [] => None
  | e :: rest =>
      if streq (type e) pat then Some (quality e) else first_seen pat rest
  end.

(** The quality of the last entry of [state] whose type is [pat]. *)
Fixpoint last_seen (pat : string) (state : acceptnorm_state)
  : option double :=
  match state with
  | [] => None
  | e :: rest =>
      match last_seen pat rest with
      | Some q => Some q
      | None => if streq (type e) pat then Some (quality e) else None
      end
  end.

(** Wildcard resolution as the specification words it: the quality kept
    for [main/*] if there is one, else the one kept for [*/*], else 0.0. *)
Definition resolve (type_wildcard wildcard : option double) : double :=
  match type_wildcard, wildcard with
  | Some q, _ => q
  | None, Some q => q
  | None, None => d_zero
  end.

(** What a tracker of [get_quality_for_type] holds after the scan of
    [rest], having started at [start]. *)
Definition tracked (pat : string) (rest : acceptnorm_state) (start : double)
  : double :=
  match last_seen pat rest with Some q => q | None => start end.

(** The three [return]s that end [get_quality_for_type]. *)
Definition finish (twq wq : double) : double :=
  if dge twq d_zero then twq
  else if dge wq d_zero then wq
  else d_zero.

(** No entry of [state] has exactly the type [ty]. *)
Definition no_exact (state : acceptnorm_state) (ty : string) : Prop :=
  forall e, In e state -> type e <> ty.

(** Every quality of [state] satisfies the C test [quality >= 0.0]. *)
Definition nonneg_qualities (state : acceptnorm_state) : Prop :=
  forall e, In e state -> dge (quality e) d_zero = true.

(** [0.0 <= q && q <= 1.0], as C evaluates it. *)
Definition in_unit_interval (q : double) : bool :=
  dge q d_zero && dge d_one q.

(** [n] copies of the character [c]. *)
Fixpoint replicate (n : nat) (c : ascii) : string :=
  match n with
  | O => EmptyString
  | S n' => String c (replicate n' c)
  end.

(** The doubles the sample headers denote. *)
Definition q_0_1 : double := S754_finite false 7205759403792794 (-56).
Definition q_0_3 : double := S754_finite false 5404319552844595 (-54).
Definition q_0_5 : double := S754_finite false 4503599627370496 (-53).
Definition q_0_8 : double := S754_finite false 7205759403792794 (-53).
Definition q_0_9 : double := S754_finite false 8106479329266893 (-53).

(** An order-preserving key for the doubles other than NaN: the class
    (-inf, negative, zero, positive, +inf), then exponent and mantissa,
    compared lexicographically. *)
Definition order_key (x : double) : option (Z * Z * Z) :=
  match x with
  | S754_nan => None
  | S754_infinity true => Some (-2, 0, 0)%Z
  | S754_finite true m e => Some (-1, - e, Zneg m)%Z
  | S754_zero _ => Some (0, 0, 0)%Z
  | S754_finite false m e => Some (1, e, Zpos m)%Z
  | S754_infinity false => Some (2, 0, 0)%Z
  end.

Definition lex_compare (a b : Z * Z * Z) : comparison :=
  let '(a1, a2, a3) := a in
  let '(b1, b2, b3) := b in
  match (a1 ?= b1)%Z with
  | Eq => match (a2 ?= b2)%Z with
          | Eq => (a3 ?= b3)%Z
          | r => r
          end
  | r => r
  end.

Definition lex_lt (a b : Z * Z * Z) : Prop :=
  let '(a1, a2, a3) := a in
  let '(b1, b2, b3) := b in
  (a1 < b1 \/ (a1 = b1 /\ a2 < b2) \/ (a1 = b1 /\ a2 = b2 /\ a3 < b3))%Z.

Definition lex_le (a b : Z * Z * Z) : Prop :=
  let '(a1, a2, a3) := a in
  let '(b1, b2, b3) := b in
  (a1 < b1 \/ (a1 = b1 /\ a2 < b2) \/ (a1 = b1 /\ a2 = b2 /\ a3 <= b3))%Z.

(** [a < b] and [a <= b] on doubles, through the keys. *)
Definition key_lt (a b : double) : Prop :=
  match order_key a, order_key b with
  | Some ka, Some kb => lex_lt ka kb
  | _, _ => False
  end.

Definition key_le (a b : double) : Prop :=
  match order_key a, order_key b with
  | Some ka, Some kb => lex_le ka kb
  | _, _ => False
  end.

(** The header entry [e] accepts the preferred type [pref]: the matcher
    accepts with [e] as pattern, and the quality of [e] is above 0. *)
Definition entry_accepts (e : media_type) (pref : string) : Prop :=
  media_type_match (type e) pref = true /\ dgt (quality e) d_zero = true.

(** Some entry of [state] accepts [pref]. *)
Definition acceptable (state : acceptnorm_state) (pref : string) : Prop :=
  exists e, In e state /\ entry_accepts e pref.

(** The quality [vmod_best_match] computes for a preferred type. *)
Definition score (state : acceptnorm_state) (pref : string) : double :=
  match_quality state pref d_zero.

(** [stop] holds of no character of [s]. *)
Fixpoint free_of (stop : ascii -> bool) (s : string) : bool :=
  match s with
  | EmptyString => true
  | String c s' => negb (stop c) && free_of stop s'
  end.

(** A quality is sound when it is NaN or lies in [0, 1]. *)
Definition sound_quality (q : double) : Prop :=
  is_nan q = true \/ in_unit_interval q = true.

(** [ok] holds of every character of [s]. *)
Fixpoint all_of (ok : ascii -> bool) (s : string) : bool :=
  match s with
  | EmptyString => true
  | String c s' => ok c && all_of ok s'
  end.

Definition is_space_or_comma (c : ascii) : bool := isspace c || is_comma c.

(** [s] is not empty and does not start with white space. *)
Definition starts_solid (s : string) : bool :=
  match s with
  | String c _ => negb (isspace c)
  | EmptyString => false
  end.

(** The doubles denoted by the numerals with one decimal of [0, 1]. *)
Definition tenths : list double :=
  map (fun s => fst (strtod s))
      ["0.0"; "0.1"; "0.2"; "0.3"; "0.4"; "0.5"; "0.6"; "0.7"; "0.8"; "0.9";
       "1.0"].

(** [q] is one of [tenths]. *)
Definition one_decimal (q : double) : bool := existsb (same_double q) tenths.

(** A type as the parser stores it: not empty, no separator inside, no
    white space at either end, lower case. *)
Definition wf_type (ty : string) : bool :=
  starts_solid ty && free_of is_semi_or_comma ty
  && String.eqb (trim_end ty) ty && String.eqb (lowercase ty) ty.

(** Neighbours are in the order of [media_type_cmp]. *)
Fixpoint ranked (l : list media_type) : bool :=
  match l with
  | x :: (y :: _) as l' =>
      match media_type_cmp x y with Gt => false | _ => ranked l' end
  | _ => true
  end.

(** What is left of the input after an entry: a following comma is
    consumed. *)
Definition after_comma (r : string) : string :=
  match r with
  | String c r' => if Ascii.eqb c "," then r' else r
  | EmptyString => r
  end.

(** [x] comes strictly before [y]. *)
Definition before (x y : media_type) : Prop := media_type_cmp x y = Lt.

(** A preferred type as [parse_preferred_types] stores it: not empty, no
    comma inside, no white space at either end, lower case. *)
Definition wf_pref (t : string) : bool :=
  starts_solid t && free_of is_comma t
  && String.eqb (trim_end t) t && String.eqb (lowercase t) t.

(** The preferred types that pass the test of [vmod_prefer], in order,
    each with the quality the loops of filter and best_match compute. *)
Definition kept_types (state : acceptnorm_state) (prefs : list string)
  : acceptnorm_state :=
  map (fun t => mk_media_type t (score state t))
      (List.filter (accepted_by state) prefs).

(** A result with a position in the input, the position lower-cased. *)
Definition low_rest {A : Type} (x : A * string) : A * string :=
  (fst x, lowercase (snd x)).

(** A quality that is neither NaN nor the negative zero. *)
Definition plain_quality (q : double) : bool :=
  match q with
  | S754_nan => false
  | S754_zero true => false
  | _ => true
  end.

(** The loop of [parse_accept_header] once more, keeping with each entry
    the position at which [parse_media_type] was called for it. *)
Fixpoint parse_steps (room : nat) (p : string)
  : list (string * media_type) :=
  match room with
  | O => []
  | S room' =>
      match p with
      | EmptyString => []
      | _ =>
          match parse_media_type p with
          | None => []
          | Some (ty, q, p') =>
              (p, mk_media_type ty q) :: parse_steps room' p'
          end
      end
  end.

(** [s], a parameter without the white space in front of it, is a [q]
    parameter as [parse_media_type] tests it: a name of one character,
    [q] or [Q], and [=] behind it. *)
Definition is_q_param (s : string) : bool :=
  match s with
  | String n (String c _) => Ascii.eqb c "=" && Ascii.eqb (tolower n) "q"
  | _ => false
  end.

(** The text of a parameter other than [q], as it stands between two
    semicolons. *)
Definition other_param (par : string) : bool :=
  free_of is_semi_or_comma par && negb (is_q_param (skip_ws par)).

(** Parameters in a row, each behind its semicolon. *)
Fixpoint param_text (pars : list string) : string :=
  match pars with
  | [] => ""
  | par :: rest => ";" ++ par ++ param_text rest
  end.

(** A [q] parameter: the semicolon, white space, the name, [=], and the
    text [v] that follows, up to the end of the header. *)
Definition q_param (ws : string) (n : ascii) (v : string) : string :=
  ";" ++ ws ++ String n ("=" ++ v).

(* ================================================================== *)
(** * Strings *)
(* ================================================================== *)

Lemma streq_true (a b : string) : streq a b = true <-> a = b.
Proof. apply String.eqb_eq. Qed.

Lemma streq_false (a b : string) : streq a b = false <-> a <> b.
Proof. apply String.eqb_neq. Qed.

Lemma streq_refl (a : string) : streq a a = true.
Proof. apply String.eqb_refl. Qed.

Lemma length_append (a b : string) :
  String.length (a ++ b) = String.length a + String.length b.
Proof. induction a as [|c a IH]; simpl; [reflexivity | now rewrite IH]. Qed.

Lemma append_assoc (a b c : string) : (a ++ b) ++ c = a ++ b ++ c.
Proof. induction a as [|x a IH]; simpl; [reflexivity | now rewrite IH]. Qed.

Lemma append_empty_r (a : string) : a ++ "" = a.
Proof. induction a as [|x a IH]; simpl; [reflexivity | now rewrite IH]. Qed.

Lemma append_cancel_l (a b c : string) : a ++ b = a ++ c -> b = c.
Proof.
  induction a as [|x a IH]; simpl; intros H; [exact H|].
  injection H as H. now apply IH.
Qed.

(** [strchr] on a string whose part before the first [c] is known. *)
Lemma strchr_app (a b : string) (c : ascii) :
  strchr a c = None ->
  strchr (a ++ String c b) c = Some (String.length a, String c b).
Proof.
  induction a as [|x a IH]; simpl; intros H.
  - now rewrite Ascii.eqb_refl.
  - destruct (Ascii.eqb x c); [discriminate|].
    destruct (strchr a c) as [[n r]|]; [discriminate|].
    now rewrite IH.
Qed.

Lemma strndup_app (a b : string) : strndup (a ++ b) (String.length a) = a.
Proof.
  induction a as [|x a IH]; simpl.
  - destruct b; reflexivity.
  - now rewrite IH.
Qed.

Lemma length_lowercase (s : string) :
  String.length (lowercase s) = String.length s.
Proof. induction s as [|c s IH]; simpl; [reflexivity | now rewrite IH]. Qed.

(** The sample qualities are what [strtod] makes of their numerals. *)
Lemma sample_qualities :
  fst (strtod "0.1") = q_0_1 /\ fst (strtod "0.3") = q_0_3 /\
  fst (strtod "0.5") = q_0_5 /\ fst (strtod "0.8") = q_0_8 /\
  fst (strtod "0.9") = q_0_9 /\ fst (strtod "1.0") = d_one /\
  fst (strtod "-1") = d_minus_one /\ fst (strtod "0") = d_zero.
Proof. repeat split; vm_compute; reflexivity. Qed.

(* ================================================================== *)
(** * Quality lookup *)
(* ================================================================== *)

Section QualityScan.

Variables (ty type_prefix : string).

Lemma quality_scan_exact (before after : acceptnorm_state) (e : media_type)
    (wq twq : double) :
  type e = ty -> no_exact before ty ->
  quality_scan (before ++ e :: after) ty type_prefix wq twq = quality e.
Proof.
  intros He. revert wq twq.
  induction before as [|x before IH]; intros wq twq Hno; simpl.
  - now rewrite (proj2 (streq_true _ _) He).
  - assert (Hx : streq (type x) ty = false)
      by (apply streq_false, Hno; now left).
    rewrite Hx.
    assert (Hno' : no_exact before ty)
      by (intros y Hy; apply Hno; now right).
    destruct (streq (type x) "*/*"); [now apply IH|].
    destruct (negb (streq type_prefix "") && streq (type x) type_prefix);
      now apply IH.
Qed.

(** Without the type-specific wildcard only [*/*] entries count. *)
Lemma quality_scan_no_prefix (state : acceptnorm_state) (wq twq : double) :
  type_prefix = "" \/ type_prefix = "*/*" ->
  no_exact state ty ->
  quality_scan state ty type_prefix wq twq =
  finish twq (tracked "*/*" state wq).
Proof.
  intros HP. revert wq twq.
  induction state as [|x state IH]; intros wq twq Hno; [reflexivity|].
  simpl.
  assert (Hx : streq (type x) ty = false)
    by (apply streq_false, Hno; now left).
  assert (Hno' : no_exact state ty)
    by (intros y Hy; apply Hno; now right).
  rewrite Hx. unfold tracked in *. simpl.
  destruct (streq (type x) "*/*") eqn:Hw.
  - rewrite IH by assumption. now destruct (last_seen "*/*" state).
  - assert (Hnp : negb (streq type_prefix "")
                  && streq (type x) type_prefix = false).
    { destruct HP as [-> | ->]; [reflexivity|]. now rewrite Hw. }
    rewrite Hnp, IH by assumption. now destruct (last_seen "*/*" state).
Qed.

(** With a type-specific wildcard both trackers follow the last entry
    of their kind. *)
Lemma quality_scan_prefix (state : acceptnorm_state) (wq twq : double) :
  type_prefix <> "" -> type_prefix <> "*/*" ->
  no_exact state ty ->
  quality_scan state ty type_prefix wq twq =
  finish (tracked type_prefix state twq) (tracked "*/*" state wq).
Proof.
  intros HP1 HP2. revert wq twq.
  induction state as [|x state IH]; intros wq twq Hno; [reflexivity|].
  simpl.
  assert (Hx : streq (type x) ty = false)
    by (apply streq_false, Hno; now left).
  assert (Hno' : no_exact state ty)
    by (intros y Hy; apply Hno; now right).
  rewrite Hx. unfold tracked in *. simpl.
  apply streq_false in HP1. rewrite HP1. simpl.
  destruct (streq (type x) "*/*") eqn:Hw.
  - rewrite IH by assumption.
    assert (Hp : streq (type x) type_prefix = false).
    { apply streq_false. apply streq_true in Hw. congruence. }
    rewrite Hp.
    now destruct (last_seen type_prefix state), (last_seen "*/*" state).
  - destruct (streq (type x) type_prefix) eqn:Hp;
      rewrite IH by assumption;
      now destruct (last_seen type_prefix state), (last_seen "*/*" state).
Qed.

End QualityScan.

Lemma last_seen_nonneg (pat : string) (state : acceptnorm_state) (q : double) :
  nonneg_qualities state -> last_seen pat state = Some q ->
  dge q d_zero = true.
Proof.
  induction state as [|x state IH]; simpl; intros Hq H; [discriminate|].
  destruct (last_seen pat state) as [q'|].
  - apply IH; [intros y Hy; apply Hq; now right | assumption].
  - destruct (streq (type x) pat); [|discriminate].
    injection H as <-. apply Hq. now left.
Qed.

(** The lookup, for a list without exact match and with qualities that
    pass [>= 0.0], in the specification's terms. *)
Lemma finish_resolve (state : acceptnorm_state) (pat : string) :
  nonneg_qualities state ->
  finish (tracked pat state d_minus_one) (tracked "*/*" state d_minus_one) =
  resolve (last_seen pat state) (last_seen "*/*" state).
Proof.
  intros Hq. unfold finish, tracked, resolve.
  destruct (last_seen pat state) as [t|] eqn:Ht.
  - now rewrite (last_seen_nonneg _ _ _ Hq Ht).
  - change (dge d_minus_one d_zero) with false. cbv iota.
    destruct (last_seen "*/*" state) as [w|] eqn:Hw; [|reflexivity].
    now rewrite (last_seen_nonneg _ _ _ Hq Hw).
Qed.

Lemma type_prefix_of_short (main sub : string) :
  strchr main "/" = None -> String.length main < 254 ->
  type_prefix_of (main ++ "/" ++ sub) = main ++ "/*".
Proof.
  intros Hm Hl. unfold type_prefix_of.
  change ("/" ++ sub) with (String "/" sub).
  rewrite (strchr_app _ _ _ Hm).
  change (256 - 2) with 254.
  destruct (Nat.ltb_spec (String.length main) 254) as [_|H]; [|lia].
  now rewrite strndup_app.
Qed.

Lemma type_prefix_of_long (main sub : string) :
  strchr main "/" = None -> 254 <= String.length main ->
  type_prefix_of (main ++ "/" ++ sub) = "".
Proof.
  intros Hm Hl. unfold type_prefix_of.
  change ("/" ++ sub) with (String "/" sub).
  rewrite (strchr_app _ _ _ Hm).
  change (256 - 2) with 254.
  destruct (Nat.ltb_spec (String.length main) 254) as [H|_]; [lia|].
  reflexivity.
Qed.

Lemma app_slash_star_nonempty (main : string) : main ++ "/*" <> "".
Proof. destruct main; discriminate. Qed.

(** The scan with a filled prefix buffer, for a list without exact match:
    the last entry equal to the prefix decides, else the last [*/*] entry,
    else 0.0. *)
Lemma quality_scan_last_seen (state : acceptnorm_state) (ty pre : string) :
  pre <> "" -> no_exact state ty -> nonneg_qualities state ->
  quality_scan state ty pre d_minus_one d_minus_one =
  resolve (last_seen pre state) (last_seen "*/*" state).
Proof.
  intros Hpre Hno Hq.
  destruct (String.eqb_spec pre "*/*") as [->|E].
  - rewrite quality_scan_no_prefix by auto.
    unfold finish, tracked, resolve.
    change (dge d_minus_one d_zero) with false. cbv iota.
    destruct (last_seen "*/*" state) as [w|] eqn:Hw; [|reflexivity].
    now rewrite (last_seen_nonneg _ _ _ Hq Hw).
  - rewrite quality_scan_prefix by auto.
    now apply finish_resolve.
Qed.

(** The scan with an empty prefix buffer: only [*/*] entries count. *)
Lemma quality_scan_wildcard_only (state : acceptnorm_state) (ty : string) :
  no_exact state ty -> nonneg_qualities state ->
  quality_scan state ty "" d_minus_one d_minus_one =
  resolve None (last_seen "*/*" state).
Proof.
  intros Hno Hq.
  rewrite quality_scan_no_prefix by auto.
  unfold finish, tracked, resolve.
  change (dge d_minus_one d_zero) with false. cbv iota.
  destruct (last_seen "*/*" state) as [w|] eqn:Hw; [|reflexivity].
  now rewrite (last_seen_nonneg _ _ _ Hq Hw).
Qed.

(** With an empty prefix buffer the entries of a type that is neither the
    type looked up nor [*/*] might as well be absent. *)
Lemma quality_scan_skips (state : acceptnorm_state) (ty pat : string)
    (wq twq : double) :
  pat <> ty -> pat <> "*/*" ->
  quality_scan (filter (fun e => negb (streq (type e) pat)) state)
               ty "" wq twq
  = quality_scan state ty "" wq twq.
Proof.
  intros Hty Hw. revert wq twq.
  induction state as [|e state IH]; intros wq twq; [reflexivity|].
  cbn [filter]. destruct (streq (type e) pat) eqn:He; cbn [negb].
  - apply streq_true in He. cbn [quality_scan].
    assert (H1 : streq (type e) ty = false)
      by (apply streq_false; congruence).
    assert (H2 : streq (type e) "*/*" = false)
      by (apply streq_false; congruence).
    rewrite H1, H2. cbn. apply IH.
  - cbn [quality_scan].
    destruct (streq (type e) ty); [reflexivity|].
    destruct (streq (type e) "*/*"); [apply IH|].
    cbn. apply IH.
Qed.

Lemma tolower_not_slash (c : ascii) :
  Ascii.eqb (tolower c) "/" = Ascii.eqb c "/".
Proof. destruct c as [[] [] [] [] [] [] [] []]; reflexivity. Qed.

Lemma strchr_lowercase_none (s : string) :
  strchr s "/" = None -> strchr (lowercase s) "/" = None.
Proof.
  induction s as [|c s IH]; simpl; [reflexivity|].
  rewrite tolower_not_slash.
  destruct (Ascii.eqb c "/"); [discriminate|].
  destruct (strchr s "/") as [[n r]|]; [discriminate|].
  intros _. now rewrite IH.
Qed.

Lemma lowercase_app (a b : string) :
  lowercase (a ++ b) = lowercase a ++ lowercase b.
Proof. induction a as [|c a IH]; simpl; [reflexivity | now rewrite IH]. Qed.

Lemma vmod_quality_lookup (h mt : string) :
  mt <> "" ->
  vmod_quality (Some h) (Some mt) =
  get_quality_for_type (parse_accept_header (Some h)) (lowercase mt).
Proof.
  intros Hmt. unfold vmod_quality.
  destruct h as [|c h]; simpl.
  - destruct mt; reflexivity.
  - destruct mt; [contradiction | reflexivity].
Qed.

(** C8.  When the list holds an entry whose type is exactly the type looked
    up, [get_quality_for_type] returns the quality of the first such entry,
    whatever wildcard entries stand before or after it and whatever their
    qualities; and
    quality("text/*;q=0.5, */*;q=0.1, text/html;q=0.9", "text/html")
    is the double 0.9. *)
Theorem exact_match_overrides_wildcards :
  (forall (before after : acceptnorm_state) (e : media_type),
      no_exact before (type e) ->
      get_quality_for_type (before ++ e :: after)%list (type e) = quality e)
  /\ vmod_quality (Some "text/*;q=0.5, */*;q=0.1, text/html;q=0.9")
                  (Some "text/html") = q_0_9.
Proof.
  split.
  - intros before after e Hno. unfold get_quality_for_type.
    now apply (quality_scan_exact (type e)).
  - vm_compute. reflexivity.
Qed.

Lemma exact_match_overrides_wildcards_witness :
  get_quality_for_type
    ([mk_media_type "text/*" q_0_5; mk_media_type "*/*" d_one]
       ++ mk_media_type "text/html" q_0_1
       :: [mk_media_type "text/html" q_0_9])%list
    "text/html" = q_0_1.
Proof.
  refine (proj1 exact_match_overrides_wildcards
            [mk_media_type "text/*" q_0_5; mk_media_type "*/*" d_one]
            [mk_media_type "text/html" q_0_9]
            (mk_media_type "text/html" q_0_1) _).
  intros e [<-|[<-|[]]]; simpl; discriminate.
Defined.

(** C1 (as stated, refuted).  With two [*/*] entries and no exact entry the
    lookup returns the quality of the later one (0.3), where first-seen
    resolution gives the earlier one (0.5). *)
Lemma first_seen_quality_refuted :
  no_exact (parse_accept_header (Some "*/*;q=0.5, */*;q=0.3")) "text/html"
  /\ vmod_quality (Some "*/*;q=0.5, */*;q=0.3") (Some "text/html") = q_0_3
  /\ resolve
       (first_seen "text/*"
          (parse_accept_header (Some "*/*;q=0.5, */*;q=0.3")))
       (first_seen "*/*"
          (parse_accept_header (Some "*/*;q=0.5, */*;q=0.3"))) = q_0_5
  /\ q_0_3 <> q_0_5.
Proof.
  repeat split; try (vm_compute; reflexivity); try discriminate.
  intros e He. vm_compute in He.
  destruct He as [<-|[<-|[]]]; simpl; discriminate.
Qed.

(** C1 (amended).  For a list with no entry equal to the concrete type
    [main/sub] ([main] shorter than 254 characters) and qualities that pass
    [>= 0.0], the lookup uses, for each wildcard category, the quality of the
    last entry of that category in list order; it prefers the [main/*]
    quality over the [*/*] quality if both exist, otherwise uses whichever
    exists, otherwise returns 0.0. *)
Theorem wildcard_quality_last_seen
    (state : acceptnorm_state) (main sub : string) :
  strchr main "/" = None -> String.length main < 254 ->
  no_exact state (main ++ "/" ++ sub) ->
  nonneg_qualities state ->
  get_quality_for_type state (main ++ "/" ++ sub) =
  resolve (last_seen (main ++ "/*") state) (last_seen "*/*" state).
Proof.
  intros Hmain Hlen Hno Hq. unfold get_quality_for_type.
  rewrite (type_prefix_of_short _ _ Hmain Hlen).
  apply quality_scan_last_seen; auto using app_slash_star_nonempty.
Qed.

Lemma wildcard_quality_last_seen_witness :
  get_quality_for_type
    [mk_media_type "text/*" q_0_9; mk_media_type "*/*" q_0_1;
     mk_media_type "text/*" q_0_5; mk_media_type "*/*" q_0_3]
    ("text" ++ "/" ++ "html") = q_0_5.
Proof.
  refine (wildcard_quality_last_seen
            [mk_media_type "text/*" q_0_9; mk_media_type "*/*" q_0_1;
             mk_media_type "text/*" q_0_5; mk_media_type "*/*" q_0_3]
            "text" "html" _ _ _ _).
  - reflexivity.
  - simpl. lia.
  - intros e [<-|[<-|[<-|[<-|[]]]]]; simpl; discriminate.
  - intros e [<-|[<-|[<-|[<-|[]]]]]; reflexivity.
Defined.

(** C10.  In a call to quality whose media type is [main/sub]: when [main]
    has 254 characters or more, the prefix buffer is left empty and [main/*]
    entries are never matched, the result is what it would be without them;
    with no entry of the parsed header equal to the type, it is the [*/*]
    quality if there is one and 0.0 otherwise, even when the header holds
    [main/*] entries.  When [main] is shorter, the buffer holds [main/*] and
    the [main/*] entries take part as usual. *)
Theorem long_main_component_skips_type_wildcard (h main sub : string) :
  strchr main "/" = None ->
  (254 <= String.length main ->
   type_prefix_of (lowercase (main ++ "/" ++ sub)) = "" /\
   (sub <> "*" ->
    get_quality_for_type
      (filter (fun e => negb (streq (type e) (lowercase main ++ "/*")))
              (parse_accept_header (Some h)))
      (lowercase (main ++ "/" ++ sub))
    = vmod_quality (Some h) (Some (main ++ "/" ++ sub))) /\
   (no_exact (parse_accept_header (Some h))
             (lowercase (main ++ "/" ++ sub)) ->
    nonneg_qualities (parse_accept_header (Some h)) ->
    vmod_quality (Some h) (Some (main ++ "/" ++ sub)) =
    resolve None (last_seen "*/*" (parse_accept_header (Some h)))))
  /\ (String.length main < 254 ->
      type_prefix_of (lowercase (main ++ "/" ++ sub))
      = lowercase main ++ "/*" /\
      (no_exact (parse_accept_header (Some h))
                (lowercase (main ++ "/" ++ sub)) ->
       nonneg_qualities (parse_accept_header (Some h)) ->
       vmod_quality (Some h) (Some (main ++ "/" ++ sub)) =
       resolve (last_seen (lowercase main ++ "/*")
                  (parse_accept_header (Some h)))
               (last_seen "*/*" (parse_accept_header (Some h))))).
Proof.
  intros Hm.
  assert (Hne : main ++ "/" ++ sub <> "") by (destruct main; discriminate).
  rewrite (vmod_quality_lookup _ _ Hne).
  rewrite lowercase_app. change (lowercase ("/" ++ sub))
    with ("/" ++ lowercase sub).
  apply strchr_lowercase_none in Hm.
  rewrite <- (length_lowercase main).
  unfold get_quality_for_type.
  split; intros Hl.
  - rewrite (type_prefix_of_long _ _ Hm Hl).
    split; [reflexivity|]. split.
    + intros Hsub. apply quality_scan_skips.
      * intros E. apply append_cancel_l in E.
        injection E as E. apply Hsub.
        destruct sub as [|c [|d sub]]; simpl in E; try discriminate.
        injection E as E.
        destruct c as [[] [] [] [] [] [] [] []];
          first [reflexivity | vm_compute in E; discriminate E].
      * intros E. apply (f_equal String.length) in E.
        rewrite length_append in E. simpl in E. lia.
    + intros Hno Hq. now apply quality_scan_wildcard_only.
  - rewrite (type_prefix_of_short _ _ Hm Hl). split; [reflexivity|].
    intros Hno Hq.
    apply quality_scan_last_seen; auto using app_slash_star_nonempty.
Qed.

Lemma long_main_component_skips_type_wildcard_witness :
  vmod_quality
    (Some (replicate 254 "a" ++ "/*;q=0.5, */*;q=0.1"))
    (Some (replicate 254 "a" ++ "/" ++ "x")) = q_0_1.
Proof.
  refine (eq_trans
            (proj2 (proj2 (proj1 (long_main_component_skips_type_wildcard
                             (replicate 254 "a" ++ "/*;q=0.5, */*;q=0.1")
                             (replicate 254 "a") "x" _) _)) _ _) _).
  - vm_compute. reflexivity.
  - apply Nat.leb_le. vm_compute. reflexivity.
  - intros e He. vm_compute in He.
    destruct He as [<-|[<-|[]]]; apply streq_false; vm_compute; reflexivity.
  - intros e He. vm_compute in He.
    destruct He as [<-|[<-|[]]]; vm_compute; reflexivity.
  - vm_compute. reflexivity.
Defined.

(* ================================================================== *)
(** * The order of doubles *)
(* ================================================================== *)

Lemma SFcompare_order_key (x y : double) :
  SFcompare x y =
  match order_key x, order_key y with
  | Some a, Some b => Some (lex_compare a b)
  | _, _ => None
  end.
Proof.
  destruct x as [[]|[]| |[] m1 e1], y as [[]|[]| |[] m2 e2];
    try reflexivity; simpl; f_equal.
  rewrite Z.compare_opp, (Z.compare_antisym e1 e2).
  destruct (e1 ?= e2)%Z; reflexivity.
Qed.

Lemma lex_compare_lt (a b : Z * Z * Z) : lex_compare a b = Lt <-> lex_lt a b.
Proof.
  destruct a as [[a1 a2] a3], b as [[b1 b2] b3]. unfold lex_compare, lex_lt.
  destruct (Z.compare_spec a1 b1); [destruct (Z.compare_spec a2 b2);
    [destruct (Z.compare_spec a3 b3)|..]|..];
    split; intros; try discriminate; try reflexivity; lia.
Qed.

Lemma lex_compare_le (a b : Z * Z * Z) : lex_compare a b <> Gt <-> lex_le a b.
Proof.
  destruct a as [[a1 a2] a3], b as [[b1 b2] b3]. unfold lex_compare, lex_le.
  destruct (Z.compare_spec a1 b1); [destruct (Z.compare_spec a2 b2);
    [destruct (Z.compare_spec a3 b3)|..]|..];
    split; intros; try discriminate; try congruence; lia.
Qed.

Lemma dlt_key (a b : double) : dlt a b = true <-> key_lt a b.
Proof.
  unfold dlt, SFltb, key_lt. rewrite SFcompare_order_key.
  destruct (order_key a) as [ka|], (order_key b) as [kb|];
    try (split; [discriminate | contradiction]).
  rewrite <- lex_compare_lt.
  destruct (lex_compare ka kb); split; congruence.
Qed.

Lemma dge_key (a b : double) : dge a b = true <-> key_le b a.
Proof.
  unfold dge, SFleb, key_le. rewrite SFcompare_order_key.
  destruct (order_key b) as [kb|], (order_key a) as [ka|];
    try (split; [discriminate | contradiction]).
  rewrite <- lex_compare_le.
  destruct (lex_compare kb ka); split; congruence.
Qed.

Lemma dlt_false_key (a b : double) : dlt a b = false <-> ~ key_lt a b.
Proof.
  rewrite <- dlt_key. destruct (dlt a b); split; congruence.
Qed.

Lemma dge_false_key (a b : double) : dge a b = false <-> ~ key_le b a.
Proof.
  rewrite <- dge_key. destruct (dge a b); split; congruence.
Qed.

Lemma is_nan_key (a : double) : is_nan a = false <-> order_key a <> None.
Proof. destruct a as [[]|[]| |[]]; simpl; split; congruence. Qed.

Ltac order_keys :=
  unfold in_unit_interval, dgt, dlt, dge in *;
  repeat match goal with
         | H : SFltb _ _ = true |- _ => apply dlt_key in H
         | H : SFltb _ _ = false |- _ => apply dlt_false_key in H
         | H : SFleb _ _ = true |- _ => apply dge_key in H
         | H : SFleb _ _ = false |- _ => apply dge_false_key in H
         | H : is_nan _ = false |- _ => apply is_nan_key in H
         | |- SFltb _ _ = true => apply dlt_key
         | |- SFltb _ _ = false => apply dlt_false_key
         | |- SFleb _ _ = true => apply dge_key
         | |- SFleb _ _ = false => apply dge_false_key
         | |- is_nan _ = false => apply is_nan_key
         end;
  unfold key_lt, key_le in *;
  cbn [order_key d_zero d_one d_minus_one] in *;
  repeat match goal with
         | |- context [order_key ?x] =>
             destruct (order_key x) as [[[? ?] ?]|]
         | H : context [order_key ?x] |- _ =>
             destruct (order_key x) as [[[? ?] ?]|]
         end;
  unfold lex_lt, lex_le in *;
  try contradiction; try congruence; try lia.

Lemma dlt_trans (a b c : double) :
  dlt a b = true -> dlt b c = true -> dlt a c = true.
Proof. intros. order_keys. Qed.

Lemma dlt_irrefl (a : double) : dlt a a = false.
Proof. order_keys. Qed.

Lemma dge_refl (a : double) : is_nan a = false -> dge a a = true.
Proof. intros. order_keys. Qed.

Lemma dlt_dge_trans (a b c : double) :
  dlt a b = true -> dge c b = true -> dlt a c = true.
Proof. intros. order_keys. Qed.

Lemma dge_dlt_trans (a b c : double) :
  dge b a = true -> dlt b c = true -> dlt a c = true.
Proof. intros. order_keys. Qed.

Lemma dge_trans (a b c : double) :
  dge a b = true -> dge b c = true -> dge a c = true.
Proof. intros. order_keys. Qed.

Lemma dlt_dge (a b : double) : dlt a b = true -> dge b a = true.
Proof. intros. order_keys. Qed.

Lemma dge_not_dlt (a b : double) : dge a b = true -> dlt a b = false.
Proof. intros. order_keys. Qed.

(** Two doubles that are not NaN always compare. *)
Lemma not_dlt_dge (a b : double) :
  is_nan a = false -> is_nan b = false -> dlt a b = false -> dge a b = true.
Proof. intros. order_keys. Qed.

Lemma dge_not_nan (a b : double) : dge a b = true -> is_nan a = false.
Proof. intros. order_keys. Qed.

Lemma dge_not_nan_r (a b : double) : dge a b = true -> is_nan b = false.
Proof. intros. order_keys. Qed.

Lemma dlt_not_nan_r (a b : double) : dlt a b = true -> is_nan b = false.
Proof. intros. order_keys. Qed.

(* ================================================================== *)
(** * prefer *)
(* ================================================================== *)

Lemma accepted_by_acceptable (state : acceptnorm_state) (pref : string) :
  accepted_by state pref = true <-> acceptable state pref.
Proof.
  unfold acceptable, entry_accepts.
  induction state as [|e state IH]; simpl.
  - split; [discriminate | intros (e & [] & _)].
  - destruct (media_type_match (type e) pref) eqn:Hm;
      destruct (dgt (quality e) d_zero) eqn:Hq; simpl;
      try (split; [intros _; exists e; auto | reflexivity]);
      rewrite IH; split;
      try (intros (x & Hx & H); exists x; split; [now right | exact H]);
      intros (x & [<-|Hx] & H1 & H2); try congruence; exists x; auto.
Qed.

Lemma prefer_loop_first (state : acceptnorm_state)
    (before after : list string) (p : string) :
  (forall x, In x before -> ~ acceptable state x) ->
  acceptable state p ->
  prefer_loop state (before ++ p :: after) = Some p.
Proof.
  intros Hb Hp. induction before as [|x before IH]; simpl.
  - now rewrite (proj2 (accepted_by_acceptable _ _) Hp).
  - destruct (accepted_by state x) eqn:Hx.
    + exfalso. apply (Hb x); [now left|].
      now apply accepted_by_acceptable.
    + apply IH. intros y Hy. apply Hb. now right.
Qed.

Lemma prefer_loop_none (state : acceptnorm_state) (prefs : list string) :
  (forall x, In x prefs -> ~ acceptable state x) ->
  prefer_loop state prefs = None.
Proof.
  induction prefs as [|x prefs IH]; simpl; intros H; [reflexivity|].
  destruct (accepted_by state x) eqn:Hx.
  - exfalso. apply (H x); [now left|]. now apply accepted_by_acceptable.
  - apply IH. intros y Hy. apply H. now right.
Qed.

Lemma vmod_prefer_loop (h pref : string) :
  h <> "" -> parse_preferred_types (Some pref) <> [] ->
  vmod_prefer (Some h) (Some pref) =
  match prefer_loop (parse_accept_header (Some h))
          (parse_preferred_types (Some pref)) with
  | Some p => p
  | None => h
  end.
Proof.
  intros Hh Hp. unfold vmod_prefer.
  destruct h as [|c h]; [contradiction|].
  destruct (parse_preferred_types (Some pref)); [contradiction | reflexivity].
Qed.

(** C9.  For a non-empty header and a non-empty preferred list, prefer
    returns the first preferred type, in the order given, that some header
    entry accepts (matcher with the header entry as pattern, quality above
    0); when no preferred type is accepted it returns the header string
    itself, unchanged; and prefer("text/plain;q=0.8", "application/json") is
    "text/plain;q=0.8". *)
Theorem prefer_returns_first_accepted (h pref : string) :
  h <> "" -> parse_preferred_types (Some pref) <> [] ->
  (forall (before after : list string) (p : string),
      parse_preferred_types (Some pref) = (before ++ p :: after)%list ->
      (forall x, In x before ->
                 ~ acceptable (parse_accept_header (Some h)) x) ->
      acceptable (parse_accept_header (Some h)) p ->
      vmod_prefer (Some h) (Some pref) = p)
  /\ ((forall x, In x (parse_preferred_types (Some pref)) ->
                 ~ acceptable (parse_accept_header (Some h)) x) ->
      vmod_prefer (Some h) (Some pref) = h)
  /\ vmod_prefer (Some "text/plain;q=0.8") (Some "application/json")
     = "text/plain;q=0.8".
Proof.
  intros Hh Hp. rewrite (vmod_prefer_loop _ _ Hh Hp).
  split; [|split].
  - intros before after p E Hb Ha. rewrite E.
    now rewrite (prefer_loop_first _ _ _ _ Hb Ha).
  - intros Hn. now rewrite (prefer_loop_none _ _ Hn).
  - vm_compute. reflexivity.
Qed.

Lemma prefer_returns_first_accepted_witness :
  vmod_prefer (Some "text/*;q=0.8, image/png;q=0")
              (Some "image/png, Text/HTML, text/plain") = "text/html".
Proof.
  refine (proj1 (prefer_returns_first_accepted
                   "text/*;q=0.8, image/png;q=0"
                   "image/png, Text/HTML, text/plain" _ _)
            ["image/png"] ["text/plain"] "text/html" _ _ _).
  - discriminate.
  - vm_compute. discriminate.
  - vm_compute. reflexivity.
  - intros x [<-|[]] (e & He & Hm & Hq). vm_compute in He.
    destruct He as [<-|[<-|[]]]; vm_compute in Hm, Hq; discriminate.
  - exists (mk_media_type "text/*" q_0_8). split.
    + vm_compute. now left.
    + split; vm_compute; reflexivity.
Defined.

(* ================================================================== *)
(** * best_match *)
(* ================================================================== *)

Lemma match_quality_ge (types : acceptnorm_state) (pref : string)
    (q : double) :
  is_nan q = false -> dge (match_quality types pref q) q = true.
Proof.
  revert q. induction types as [|e types IH]; simpl; intros q Hq.
  - now apply dge_refl.
  - destruct (media_type_match (type e) pref); [|now apply IH].
    destruct (dgt (quality e) q) eqn:Hg; [|now apply IH].
    unfold dgt in Hg.
    apply dge_trans with (quality e).
    + apply IH. now apply dlt_not_nan_r in Hg.
    + now apply dlt_dge.
Qed.

Lemma score_nonneg (state : acceptnorm_state) (pref : string) :
  dge (score state pref) d_zero = true.
Proof. now apply match_quality_ge. Qed.

Lemma score_not_nan (state : acceptnorm_state) (pref : string) :
  is_nan (score state pref) = false.
Proof. apply dge_not_nan with d_zero, score_nonneg. Qed.

(** No matching entry has a quality above the one computed. *)
Lemma match_quality_upper (types : acceptnorm_state) (pref : string)
    (q : double) (e : media_type) :
  is_nan q = false -> In e types ->
  media_type_match (type e) pref = true ->
  dgt (quality e) (match_quality types pref q) = false.
Proof.
  revert q. induction types as [|x types IH]; simpl; intros q Hq [];
    intros Hm.
  - subst x. rewrite Hm.
    destruct (dgt (quality e) q) eqn:Hg; unfold dgt in *.
    + apply dge_not_dlt, match_quality_ge. now apply dlt_not_nan_r in Hg.
    + destruct (is_nan (quality e)) eqn:Hn.
      * destruct (quality e); try discriminate.
        unfold dlt, SFltb. rewrite SFcompare_order_key.
        now destruct (order_key _).
      * apply dge_not_dlt. apply dge_trans with q.
        -- now apply match_quality_ge.
        -- now apply not_dlt_dge.
  - destruct (media_type_match (type x) pref); [|now apply IH].
    destruct (dgt (quality x) q) eqn:Hg; [|now apply IH].
    apply IH; auto. now apply dlt_not_nan_r in Hg.
Qed.

(** The quality computed is the start value or that of a matching entry. *)
Lemma match_quality_attained (types : acceptnorm_state) (pref : string)
    (q : double) :
  match_quality types pref q = q \/
  exists e, In e types /\ media_type_match (type e) pref = true /\
            quality e = match_quality types pref q.
Proof.
  revert q. induction types as [|x types IH]; simpl; intros q; [now left|].
  destruct (media_type_match (type x) pref) eqn:Hm.
  - destruct (dgt (quality x) q).
    + right. destruct (IH (quality x)) as [E|(e & He & H)].
      * exists x. rewrite E. auto.
      * exists e. auto.
    + destruct (IH q) as [E|(e & He & H)]; [now left|].
      right. exists e. auto.
  - destruct (IH q) as [E|(e & He & H)]; [now left|].
    right. exists e. auto.
Qed.

(** The outer loop once a tentative best is set. *)
Lemma best_loop_spec (state : acceptnorm_state) (prefs : list string)
    (b : string) (bq : double) :
  is_nan bq = false ->
  exists r,
    best_loop state prefs (Some b) bq = Some r /\
    ((r = b /\ forall x, In x prefs -> dgt (score state x) bq = false) \/
     (exists before after,
         prefs = (before ++ r :: after)%list /\
         dlt bq (score state r) = true /\
         (forall x, In x before ->
                    dlt (score state x) (score state r) = true) /\
         (forall x, In x after ->
                    dgt (score state x) (score state r) = false))).
Proof.
  revert b bq. induction prefs as [|p prefs IH]; simpl; intros b bq Hn.
  - exists b. split; [reflexivity|]. left. split; [reflexivity|]. intros x [].
  - fold (score state p).
    destruct (dgt (score state p) bq) eqn:Hg.
    + destruct (IH p (score state p) (score_not_nan _ _))
        as (r & Hr & [[-> Hall]|(before & after & E & Hlt & Hb & Ha)]).
      * exists p. split; [exact Hr|]. right. exists [], prefs.
        repeat split; auto; intros x [].
      * exists r. split; [exact Hr|]. right.
        exists (p :: before), after. subst prefs.
        repeat split; auto.
        -- unfold dgt in Hg. now apply dlt_trans with (score state p).
        -- intros x [<-|Hx]; auto.
    + destruct (IH b bq Hn)
        as (r & Hr & [[-> Hall]|(before & after & E & Hlt & Hb & Ha)]).
      * exists b. split; [exact Hr|]. left. split; [reflexivity|].
        intros x [<-|Hx]; auto.
      * exists r. split; [exact Hr|]. right.
        exists (p :: before), after. subst prefs.
        repeat split; auto.
        intros x [<-|Hx]; auto.
        apply dge_dlt_trans with bq; [|exact Hlt].
        apply not_dlt_dge; auto using score_not_nan.
Qed.

Lemma first_round_sets_best (state : acceptnorm_state) (p : string) :
  dgt (score state p) d_minus_one = true.
Proof.
  unfold dgt. apply dlt_dge_trans with d_zero; [reflexivity|].
  apply score_nonneg.
Qed.

Lemma vmod_best_match_loop (h pref : string) (first : string)
    (rest : list string) :
  h <> "" -> parse_preferred_types (Some pref) = first :: rest ->
  best_loop (parse_accept_header (Some h)) rest (Some first)
            (score (parse_accept_header (Some h)) first)
  = Some (vmod_best_match (Some h) (Some pref)).
Proof.
  intros Hh E. unfold vmod_best_match. rewrite E.
  destruct h as [|c h]; [contradiction|].
  cbv beta iota delta [absent].
  cbn [best_loop]. fold (score (parse_accept_header (Some (String c h))) first).
  rewrite first_round_sets_best.
  destruct (best_loop_spec (parse_accept_header (Some (String c h))) rest
              first (score (parse_accept_header (Some (String c h))) first)
              (score_not_nan _ _)) as (r & -> & _).
  reflexivity.
Qed.

(** C6.  For a non-empty header and a non-empty preferred list, with
    [score t] the quality best_match computes for the preferred type [t]:
    [score t] is at least 0.0, no header entry matching [t] has a quality
    above it, and it is 0.0 or the quality of a matching entry (the maximum
    matcher-accepted quality); the type returned stands in the preferred
    list with every earlier type scoring strictly lower and no later type
    scoring higher (strictly highest, earliest on ties); and since the
    sentinel is below zero the first round always makes the first preferred
    type the tentative best, so that it is returned whenever no later type
    scores strictly higher than it, even with a score of exactly 0.0, as in
    best_match("image/png", "application/json,text/html"). *)
Theorem best_match_keeps_earliest_maximum (h pref : string) :
  h <> "" -> parse_preferred_types (Some pref) <> [] ->
  (forall t,
      dge (score (parse_accept_header (Some h)) t) d_zero = true /\
      (forall e, In e (parse_accept_header (Some h)) ->
                 media_type_match (type e) t = true ->
                 dgt (quality e) (score (parse_accept_header (Some h)) t)
                 = false) /\
      (score (parse_accept_header (Some h)) t = d_zero \/
       exists e, In e (parse_accept_header (Some h)) /\
                 media_type_match (type e) t = true /\
                 quality e = score (parse_accept_header (Some h)) t))
  /\ (exists before after,
         parse_preferred_types (Some pref)
         = (before ++ vmod_best_match (Some h) (Some pref) :: after)%list /\
         (forall x, In x before ->
            dlt (score (parse_accept_header (Some h)) x)
                (score (parse_accept_header (Some h))
                       (vmod_best_match (Some h) (Some pref))) = true) /\
         (forall x, In x after ->
            dgt (score (parse_accept_header (Some h)) x)
                (score (parse_accept_header (Some h))
                       (vmod_best_match (Some h) (Some pref))) = false))
  /\ (forall first rest,
         parse_preferred_types (Some pref) = first :: rest ->
         best_loop (parse_accept_header (Some h)) (first :: rest)
                   None d_minus_one
         = best_loop (parse_accept_header (Some h)) rest (Some first)
                     (score (parse_accept_header (Some h)) first))
  /\ (forall first rest,
         parse_preferred_types (Some pref) = first :: rest ->
         (forall x, In x rest ->
            dgt (score (parse_accept_header (Some h)) x)
                (score (parse_accept_header (Some h)) first) = false) ->
         vmod_best_match (Some h) (Some pref) = first)
  /\ (score (parse_accept_header (Some "image/png")) "application/json"
      = d_zero /\
      vmod_best_match (Some "image/png") (Some "application/json,text/html")
      = "application/json").
Proof.
  intros Hh Hp. split; [|split; [|split; [|split]]].
  - intros t. split; [apply score_nonneg|]. split.
    + intros e He Hm. now apply match_quality_upper.
    + apply match_quality_attained.
  - destruct (parse_preferred_types (Some pref)) as [|first rest] eqn:E;
      [contradiction|].
    pose proof (vmod_best_match_loop h pref first rest Hh E) as Hloop.
    destruct (best_loop_spec (parse_accept_header (Some h)) rest first
                (score (parse_accept_header (Some h)) first)
                (score_not_nan _ _))
      as (r & Hr & [[-> Hall]|(before & after & -> & Hlt & Hb & Ha)]);
      rewrite Hr in Hloop; injection Hloop as <-.
    + exists [], rest. repeat split; auto; intros x [].
    + exists (first :: before), after. repeat split; auto.
      intros x [<-|Hx]; auto.
  - intros first rest _. cbn [best_loop].
    fold (score (parse_accept_header (Some h)) first).
    now rewrite first_round_sets_best.
  - intros first rest E Hrest.
    pose proof (vmod_best_match_loop h pref first rest Hh E) as Hloop.
    destruct (best_loop_spec (parse_accept_header (Some h)) rest first
                (score (parse_accept_header (Some h)) first)
                (score_not_nan _ _))
      as (r & Hr & [[-> Hall]|(before & after & -> & Hlt & Hb & Ha)]);
      rewrite Hr in Hloop; injection Hloop as <-; [reflexivity|].
    exfalso.
    assert (Hin : In r (before ++ r :: after)%list)
      by (apply in_or_app; right; now left).
    specialize (Hrest _ Hin). unfold dgt, dlt in *. congruence.
  - split; vm_compute; reflexivity.
Qed.

Lemma best_match_keeps_earliest_maximum_witness :
  vmod_best_match
    (Some "text/html;q=0.3, application/json;q=0.3, image/*;q=0.1")
    (Some "application/json, image/png, text/html") = "application/json".
Proof.
  refine (proj1 (proj2 (proj2 (proj2 (best_match_keeps_earliest_maximum
            "text/html;q=0.3, application/json;q=0.3, image/*;q=0.1"
            "application/json, image/png, text/html" _ _))))
            "application/json" ["image/png"; "text/html"] _ _).
  - discriminate.
  - vm_compute. discriminate.
  - vm_compute. reflexivity.
  - intros x [<-|[<-|[]]]; vm_compute; reflexivity.
Defined.

(* ================================================================== *)
(** * Scanning *)
(* ================================================================== *)

Lemma skip_ws_app (a b : string) :
  skip_ws a <> "" -> skip_ws (a ++ b) = skip_ws a ++ b.
Proof.
  induction a as [|c a IH]; simpl; intros H; [contradiction|].
  destruct (isspace c); [now apply IH | reflexivity].
Qed.

Lemma skip_ws_spaces (lead s : string) :
  all_of isspace lead = true -> skip_ws (lead ++ s) = skip_ws s.
Proof.
  induction lead as [|c lead IH]; simpl; intros H; [reflexivity|].
  apply andb_prop in H as [H1 H2]. rewrite H1. now apply IH.
Qed.

Lemma free_of_skip_ws (stop : ascii -> bool) (s : string) :
  free_of stop s = true -> free_of stop (skip_ws s) = true.
Proof.
  induction s as [|c s IH]; simpl; intros H; [reflexivity|].
  apply andb_prop in H as [H1 H2].
  destruct (isspace c); [now apply IH|]. simpl. now rewrite H1, H2.
Qed.

(** A scan runs over a stop-free token up to the stop character after it. *)
Lemma scan_until_token (stop : ascii -> bool) (tok : string) (c : ascii)
    (r : string) :
  free_of stop tok = true -> stop c = true ->
  scan_until stop (tok ++ String c r) = (tok, String c r).
Proof.
  intros Ht Hc. induction tok as [|x tok IH]; simpl in *.
  - now rewrite Hc.
  - apply andb_prop in Ht as [H1 H2].
    apply negb_true_iff in H1. rewrite H1, (IH H2). reflexivity.
Qed.

Lemma scan_until_all (stop : ascii -> bool) (tok : string) :
  free_of stop tok = true -> scan_until stop tok = (tok, "").
Proof.
  intros Ht. induction tok as [|x tok IH]; simpl in *; [reflexivity|].
  apply andb_prop in Ht as [H1 H2].
  apply negb_true_iff in H1. rewrite H1, (IH H2). reflexivity.
Qed.

(** The loop over parameters stops at once on anything but a semicolon. *)
Lemma parse_params_stop (fuel : nat) (p : string) (q : double) :
  (forall r, p <> String ";" r) -> parse_params fuel p q = (q, p).
Proof.
  intros H. destruct fuel; [reflexivity|]. simpl.
  destruct p as [|c p]; [reflexivity|].
  destruct (Ascii.eqb_spec c ";") as [->|_]; [|reflexivity].
  now destruct (H p).
Qed.

(** One round of the loop on a [q] parameter. *)
Lemma parse_params_q (fuel : nat) (v : string) (q : double) :
  parse_params (S fuel) (";q=" ++ v) q =
  let '(x, p) := strtod (skip_ws v) in parse_params fuel p (clamp x).
Proof. reflexivity. Qed.

(* ================================================================== *)
(** * Qualities out of the parser *)
(* ================================================================== *)

Lemma clamp_range (v : double) :
  is_nan v = false -> in_unit_interval (clamp v) = true.
Proof.
  intros Hv. unfold clamp.
  destruct (dlt v d_zero) eqn:H0.
  - reflexivity.
  - destruct (dgt v d_one) eqn:H1; [reflexivity|].
    apply andb_true_intro. split; order_keys.
Qed.

Lemma clamp_nan : clamp S754_nan = S754_nan.
Proof. reflexivity. Qed.

Lemma clamp_sound (v : double) : sound_quality (clamp v).
Proof.
  destruct (is_nan v) eqn:Hv.
  - left. now destruct v.
  - right. now apply clamp_range.
Qed.

Lemma parse_params_sound (fuel : nat) (p : string) (q : double) :
  sound_quality q -> sound_quality (fst (parse_params fuel p q)).
Proof.
  revert p q. induction fuel as [|fuel IH]; intros p q Hq; [exact Hq|].
  simpl. destruct p as [|c p1]; [exact Hq|].
  destruct (Ascii.eqb c ";"); [|exact Hq].
  destruct (scan_until is_eq_semi_or_comma (skip_ws p1)) as [name p2].
  destruct p2 as [|c2 p3]; [now apply IH|].
  destruct (Ascii.eqb c2 "="); [|now apply IH].
  destruct name as [|n [|n' name]].
  - destruct (scan_until is_semi_or_comma p3). now apply IH.
  - destruct (Ascii.eqb (tolower n) "q").
    + destruct (strtod (skip_ws p3)) as [v p4]. apply IH, clamp_sound.
    + destruct (scan_until is_semi_or_comma p3). now apply IH.
  - destruct (scan_until is_semi_or_comma p3). now apply IH.
Qed.

Lemma parse_media_type_sound (p ty rest : string) (q : double) :
  parse_media_type p = Some (ty, q, rest) -> sound_quality q.
Proof.
  unfold parse_media_type.
  destruct (skip_ws p) as [|c p0]; [discriminate|].
  destruct (scan_until is_semi_or_comma (String c p0)) as [tok p1].
  destruct (trim_end tok); [discriminate|].
  pose proof (parse_params_sound (S (String.length p1)) p1 d_one
                (or_intror eq_refl)) as H.
  destruct (parse_params (S (String.length p1)) p1 d_one) as [q' p2].
  intros E. injection E as _ <- _. exact H.
Qed.

Lemma parse_entries_sound (room : nat) (p : string) (e : media_type) :
  In e (parse_entries room p) -> sound_quality (quality e).
Proof.
  revert p. induction room as [|room IH]; intros p; simpl; [intros []|].
  destruct p as [|c p]; [intros []|].
  destruct (parse_media_type (String c p)) as [[[ty q] rest]|] eqn:E;
    [|intros []].
  intros [<-|H]; [|now apply IH in H].
  simpl. now apply parse_media_type_sound in E.
Qed.

(** The scan returns 0.0, a tracker that passed [>= 0.0], or the quality
    of an entry. *)
Lemma quality_scan_source (types : acceptnorm_state) (ty pre : string)
    (wq twq : double) :
  let r := quality_scan types ty pre wq twq in
  r = d_zero \/ (r = wq /\ dge wq d_zero = true)
  \/ (r = twq /\ dge twq d_zero = true)
  \/ exists e, In e types /\ r = quality e /\
               (streq (type e) ty = true \/ dge (quality e) d_zero = true).
Proof.
  revert wq twq. induction types as [|e types IH]; intros wq twq; simpl.
  - destruct (dge twq d_zero) eqn:Ht; [auto|].
    destruct (dge wq d_zero) eqn:Hw; auto.
  - destruct (streq (type e) ty) eqn:He.
    { right. right. right. exists e. auto. }
    assert (Hlift : forall r, (exists x, In x types /\ r = quality x /\
              (streq (type x) ty = true \/ dge (quality x) d_zero = true)) ->
            exists x, (e = x \/ In x types) /\ r = quality x /\
              (streq (type x) ty = true \/ dge (quality x) d_zero = true)).
    { intros r (x & Hx & H). exists x. auto. }
    destruct (streq (type e) "*/*");
      [|destruct (negb (streq pre "") && streq (type e) pre)].
    + destruct (IH (quality e) twq) as [H|[[H1 H2]|[H|H]]]; auto.
      right. right. right. exists e. auto.
    + destruct (IH wq (quality e)) as [H|[H|[[H1 H2]|H]]]; auto.
      right. right. right. exists e. auto.
    + destruct (IH wq twq) as [H|[H|[H|H]]]; auto.
Qed.

(** What [vmod_quality] can return: NaN, or a value of [0, 1]. *)
Lemma vmod_quality_sound (h mt : option string) :
  sound_quality (vmod_quality h mt).
Proof.
  unfold vmod_quality.
  destruct (absent h); [now right|].
  destruct mt as [[|c mt]|]; try (now right).
  unfold get_quality_for_type.
  destruct (quality_scan_source (parse_accept_header h)
              (lowercase (String c mt))
              (type_prefix_of (lowercase (String c mt)))
              d_minus_one d_minus_one)
    as [->|[[_ H]|[[_ H]|(e & He & -> & _)]]];
    try (now right); try discriminate.
  destruct h as [h|]; [|destruct He].
  now apply parse_entries_sound in He.
Qed.

(** C7.  The clamp sends 5 to 1.0 and -3 to 0.0, but it lets NaN through:
    both of its tests are false on NaN.  The header "text/html;q=nan" gives
    the entry the quality NaN, and quality returns it: a value outside
    [0.0, 1.0]. *)
Theorem quality_nan_escapes_clamp :
  parse_accept_header (Some "text/html;q=5")
    = [mk_media_type "text/html" d_one]
  /\ parse_accept_header (Some "text/html;q=-3")
    = [mk_media_type "text/html" d_zero]
  /\ parse_accept_header (Some "text/html;q=nan")
    = [mk_media_type "text/html" S754_nan]
  /\ vmod_quality (Some "text/html;q=nan") (Some "text/html") = S754_nan
  /\ in_unit_interval
       (vmod_quality (Some "text/html;q=nan") (Some "text/html")) = false.
Proof. repeat split; vm_compute; reflexivity. Qed.

(** C4.  A segment with an empty type token makes [parse_media_type]
    return NULL, on which [parse_accept_header] leaves its loop: the entries
    after the empty segment are lost, "text/html,,image/png" parses to the
    single entry text/html.  [parse_preferred_types] skips the empty segment
    of the same text and goes on. *)
Theorem empty_segment_ends_parsing :
  (forall (room : nat) (rest : string),
      parse_entries room (String "," rest) = [])
  /\ parse_accept_header (Some "text/html,,image/png")
     = [mk_media_type "text/html" d_one]
  /\ parse_preferred_types (Some "text/html,,image/png")
     = ["text/html"; "image/png"].
Proof.
  split; [|split; vm_compute; reflexivity].
  intros [|room] rest; reflexivity.
Qed.

Lemma skip_ws_app_solid (a : string) (c : ascii) (r : string) :
  isspace c = false -> skip_ws (a ++ String c r) = skip_ws a ++ String c r.
Proof.
  intros Hc. induction a as [|x a IH]; simpl.
  - now rewrite Hc.
  - destruct (isspace x); [exact IH | reflexivity].
Qed.

Lemma q_name_cases (n : ascii) :
  Ascii.eqb (tolower n) "q" = true -> n = "q"%char \/ n = "Q"%char.
Proof.
  destruct n as [[] [] [] [] [] [] [] []]; intros H;
    first [discriminate H | now left | now right].
Qed.

(** Up to the semicolon, a parameter is a name alone or a name, [=] and
    a value. *)
Lemma scan_until_name (s r : string) :
  free_of is_semi_or_comma s = true ->
  scan_until is_eq_semi_or_comma (s ++ String ";" r) = (s, String ";" r)
  \/ exists name value,
       s = name ++ String "=" value /\
       free_of is_semi_or_comma value = true /\
       scan_until is_eq_semi_or_comma (s ++ String ";" r)
       = (name, String "=" (value ++ String ";" r)).
Proof.
  induction s as [|c s IH]; intros Hs.
  - left. reflexivity.
  - cbn [free_of] in Hs. apply andb_prop in Hs as [Hc Hs].
    cbn [append scan_until].
    destruct (is_eq_semi_or_comma c) eqn:Ec.
    + right. exists "", s.
      assert (c = "="%char) as ->.
      { revert Hc Ec. unfold is_eq_semi_or_comma, is_semi_or_comma.
        destruct (Ascii.eqb_spec c "="); [auto|].
        destruct (Ascii.eqb c ";"), (Ascii.eqb c ","); discriminate. }
      auto.
    + destruct (IH Hs) as [E|(name & value & -> & Hv & E)].
      * left. now rewrite E.
      * right. exists (String c name), value. rewrite E. auto.
Qed.

(** One round of the parameter loop on a parameter other than [q]. *)
Lemma parse_params_other (fuel : nat) (par r : string) (q : double) :
  other_param par = true ->
  parse_params (S fuel) (String ";" (par ++ String ";" r)) q
  = parse_params fuel (String ";" r) q.
Proof.
  unfold other_param. intros H. apply andb_prop in H as [Hfree Hq].
  apply negb_true_iff in Hq.
  cbn [parse_params]. change (Ascii.eqb ";" ";") with true. cbv iota.
  rewrite skip_ws_app_solid by reflexivity.
  apply (free_of_skip_ws is_semi_or_comma) in Hfree.
  destruct (scan_until_name (skip_ws par) r Hfree)
    as [E|(name & value & Es & Hv & E)]; rewrite E.
  - reflexivity.
  - change (Ascii.eqb "=" "=") with true. cbv iota.
    rewrite (scan_until_token is_semi_or_comma value ";" r Hv eq_refl).
    destruct name as [|n [|n' name]]; try reflexivity.
    rewrite Es in Hq. cbn in Hq. now rewrite Hq.
Qed.

(** The round on a [q] parameter whose value text converts to nothing. *)
Lemma parse_params_no_conversion (fuel : nat) (ws : string) (n : ascii)
    (v : string) (q : double) :
  all_of isspace ws = true ->
  Ascii.eqb (tolower n) "q" = true ->
  strtod (skip_ws v) = (d_zero, skip_ws v) ->
  (forall r, skip_ws v <> String ";" r) ->
  parse_params (S fuel) (q_param ws n v) q = (d_zero, skip_ws v).
Proof.
  intros Hws Hn Hconv Hsemi. unfold q_param.
  cbn [append parse_params]. change (Ascii.eqb ";" ";") with true. cbv iota.
  rewrite (skip_ws_spaces _ _ Hws).
  destruct (q_name_cases n Hn) as [-> | ->];
    cbn [skip_ws isspace scan_until append]; cbn; rewrite Hconv;
    now apply parse_params_stop.
Qed.

Lemma param_text_semicolon (pars : list string) (ws : string) (n : ascii)
    (v : string) :
  exists r, param_text pars ++ q_param ws n v = String ";" r.
Proof. destruct pars; eexists; reflexivity. Qed.

(** The parameter loop over parameters other than [q] and then a [q]
    parameter whose value converts to nothing. *)
Lemma parse_params_q_last (pars : list string) (ws : string) (n : ascii)
    (v : string) :
  Forall (fun par => other_param par = true) pars ->
  all_of isspace ws = true ->
  Ascii.eqb (tolower n) "q" = true ->
  strtod (skip_ws v) = (d_zero, skip_ws v) ->
  (forall r, skip_ws v <> String ";" r) ->
  forall fuel q, List.length pars < fuel ->
    parse_params fuel (param_text pars ++ q_param ws n v) q
    = (d_zero, skip_ws v).
Proof.
  intros Hpars Hws Hn Hconv Hsemi.
  induction Hpars as [|par pars Hpar _ IH]; intros fuel q Hfuel;
    (destruct fuel as [|fuel]; [simpl in Hfuel; lia|]).
  - now apply parse_params_no_conversion.
  - assert (E : param_text (par :: pars) ++ q_param ws n v
                = String ";" (par ++ param_text pars ++ q_param ws n v)).
    { cbn [param_text append]. now rewrite append_assoc. }
    destruct (param_text_semicolon pars ws n v) as (r & Er).
    rewrite E, Er, (parse_params_other _ _ _ _ Hpar), <- Er.
    apply IH. simpl in Hfuel. lia.
Qed.

Lemma param_text_length (pars : list string) :
  List.length pars <= String.length (param_text pars).
Proof.
  induction pars as [|par pars IH]; simpl; [lia|].
  rewrite length_append. lia.
Qed.

(** The call of [parse_media_type] on the text of such an entry. *)
Lemma parse_media_type_no_conversion (tok : string) (pars : list string)
    (ws : string) (n : ascii) (v : string) :
  free_of is_semi_or_comma tok = true ->
  Forall (fun par => other_param par = true) pars ->
  all_of isspace ws = true ->
  Ascii.eqb (tolower n) "q" = true ->
  strtod (skip_ws v) = (d_zero, skip_ws v) ->
  (forall r, skip_ws v <> String ";" r) ->
  parse_media_type (tok ++ param_text pars ++ q_param ws n v)
  = match trim_end (skip_ws tok) with
    | EmptyString => None
    | ty => Some (lowercase ty, d_zero, after_comma (skip_ws (skip_ws v)))
    end.
Proof.
  intros Hfree Hpars Hws Hn Hconv Hsemi.
  unfold parse_media_type.
  destruct (param_text_semicolon pars ws n v) as (r & Er).
  rewrite Er, skip_ws_app_solid by reflexivity.
  destruct (skip_ws tok ++ String ";" r) as [|c0 p0] eqn:E0;
    [destruct (skip_ws tok); discriminate|].
  rewrite <- E0.
  rewrite scan_until_token by (auto using free_of_skip_ws).
  destruct (trim_end (skip_ws tok)) as [|t0 ty]; [reflexivity|].
  rewrite <- Er.
  rewrite (parse_params_q_last pars ws n v Hpars Hws Hn Hconv Hsemi).
  - reflexivity.
  - pose proof (param_text_length pars).
    rewrite length_append. lia.
Qed.

(** The recorded loop stores what the loop stores. *)
Lemma parse_steps_entries (room : nat) (p : string) :
  map snd (parse_steps room p) = parse_entries room p.
Proof.
  revert p. induction room as [|room IH]; intros p; [reflexivity|].
  cbn [parse_steps parse_entries].
  destruct p as [|c p]; [reflexivity|].
  destruct (parse_media_type (String c p)) as [[[ty q] p']|]; [|reflexivity].
  cbn [map snd]. now rewrite IH.
Qed.

(** Each recorded entry is what [parse_media_type] returned at its
    position. *)
Lemma parse_steps_call (room : nat) (p pos : string) (e : media_type) :
  In (pos, e) (parse_steps room p) ->
  exists rest, parse_media_type pos = Some (type e, quality e, rest).
Proof.
  revert p. induction room as [|room IH]; intros p H; [destruct H|].
  cbn [parse_steps] in H.
  destruct p as [|c p]; [destruct H|].
  destruct (parse_media_type (String c p)) as [[[ty q] p']|] eqn:E;
    [|destruct H].
  destruct H as [H|H].
  - injection H as <- <-. exists p'. exact E.
  - now apply (IH p').
Qed.

(** C3 (as stated, refuted).  The entry of "text/html;q=abc" gets the
    quality 0.0, not the 1.0 of the entry of "text/html". *)
Lemma unparsable_quality_not_default :
  parse_accept_header (Some "text/html;q=abc")
    = [mk_media_type "text/html" d_zero; mk_media_type "abc" d_one]
  /\ parse_accept_header (Some "text/html")
    = [mk_media_type "text/html" d_one]
  /\ d_zero <> d_one.
Proof. repeat split; try (vm_compute; reflexivity). discriminate. Qed.

(** C3 (amended).  Take any header [h] and any entry [e] of it, read by
    the loop of [parse_accept_header] at a position whose text is a type
    token [tok], parameters [pars] other than [q], and then a [q]
    parameter (name [q] or [Q], white space allowed in front of it) with a
    value text [v] on which [strtod] performs no conversion and which does
    not go on with a further parameter.  Then [e] has the lower-cased,
    trimmed token as its type and the quality 0.0 that [strtod] returns in
    that case: malformed quality text is never an error and yields no
    other value than 0.0.  The entries recorded with their positions are
    the entries of the header; and a header that begins with such text
    with a non-empty type has that entry as its first. *)
Theorem unparsable_quality_is_zero (tok : string) (pars : list string)
    (ws : string) (n : ascii) (v : string) :
  free_of is_semi_or_comma tok = true ->
  Forall (fun par => other_param par = true) pars ->
  all_of isspace ws = true ->
  Ascii.eqb (tolower n) "q" = true ->
  strtod (skip_ws v) = (d_zero, skip_ws v) ->
  (forall r, skip_ws v <> String ";" r) ->
  (forall (h : string) (e : media_type),
      In (tok ++ param_text pars ++ q_param ws n v, e)
         (parse_steps MAX_MEDIA_TYPES h) ->
      e = mk_media_type (lowercase (trim_end (skip_ws tok))) d_zero)
  /\ (forall h : string,
        map snd (parse_steps MAX_MEDIA_TYPES h)
        = parse_accept_header (Some h))
  /\ (trim_end (skip_ws tok) <> "" ->
      exists more,
        parse_accept_header
          (Some (tok ++ param_text pars ++ q_param ws n v))
        = mk_media_type (lowercase (trim_end (skip_ws tok))) d_zero
          :: more).
Proof.
  intros Hfree Hpars Hws Hn Hconv Hsemi.
  pose proof (parse_media_type_no_conversion tok pars ws n v
                Hfree Hpars Hws Hn Hconv Hsemi) as Hcall.
  split; [|split].
  - intros h e He.
    apply parse_steps_call in He as (rest & Hrest).
    rewrite Hcall in Hrest.
    destruct (trim_end (skip_ws tok)) as [|t0 ty]; [discriminate|].
    destruct e as [ty' q']. cbn [type quality] in Hrest.
    now injection Hrest as <- <- _.
  - intros h. apply parse_steps_entries.
  - intros Htok. unfold parse_accept_header, MAX_MEDIA_TYPES.
    cbn [parse_entries]. rewrite Hcall.
    destruct (trim_end (skip_ws tok)) as [|t0 ty]; [contradiction|].
    destruct (tok ++ param_text pars ++ q_param ws n v) eqn:E.
    + destruct (param_text_semicolon pars ws n v) as (r & Er).
      rewrite Er in E. destruct tok; discriminate.
    + eexists. reflexivity.
Qed.

Lemma unparsable_quality_is_zero_witness :
  In (" Text/HTML " ++ param_text ["level=1"; " charset = x"]
        ++ q_param " " "Q" " abc;x=1, image/png",
      mk_media_type "text/html" d_zero)
     (parse_steps MAX_MEDIA_TYPES
        "a/b, Text/HTML ;level=1; charset = x; Q= abc;x=1, image/png")
  /\ mk_media_type "text/html" d_zero
     = mk_media_type (lowercase (trim_end (skip_ws " Text/HTML "))) d_zero.
Proof.
  assert (H : In (" Text/HTML " ++ param_text ["level=1"; " charset = x"]
                    ++ q_param " " "Q" " abc;x=1, image/png",
                  mk_media_type "text/html" d_zero)
                 (parse_steps MAX_MEDIA_TYPES
                    "a/b, Text/HTML ;level=1; charset = x; Q= abc;x=1, image/png")).
  { vm_compute. right. left. reflexivity. }
  split; [exact H|].
  refine (proj1 (unparsable_quality_is_zero
                   " Text/HTML " ["level=1"; " charset = x"] " " "Q"
                   " abc;x=1, image/png" _ _ _ _ _ _)
            "a/b, Text/HTML ;level=1; charset = x; Q= abc;x=1, image/png"
            _ H).
  - reflexivity.
  - repeat constructor.
  - reflexivity.
  - reflexivity.
  - vm_compute. reflexivity.
  - intros r. vm_compute. discriminate.
Defined.

(* ================================================================== *)
(** * The preferred list *)
(* ================================================================== *)

Lemma isspace_not_comma (c : ascii) : isspace c = true -> is_comma c = false.
Proof.
  unfold is_comma. destruct (Ascii.eqb_spec c ","); [subst; discriminate|].
  reflexivity.
Qed.

Lemma free_of_app (stop : ascii -> bool) (a b : string) :
  free_of stop a = true -> free_of stop b = true ->
  free_of stop (a ++ b) = true.
Proof.
  induction a as [|c a IH]; simpl; intros Ha Hb; [exact Hb|].
  apply andb_prop in Ha as [H1 H2]. now rewrite H1, IH.
Qed.

Lemma spaces_free_of_comma (s : string) :
  all_of isspace s = true -> free_of is_comma s = true.
Proof.
  induction s as [|c s IH]; simpl; intros H; [reflexivity|].
  apply andb_prop in H as [H1 H2].
  now rewrite (isspace_not_comma _ H1), IH.
Qed.

Lemma trim_end_spaces (s : string) :
  all_of isspace s = true -> trim_end s = "".
Proof.
  induction s as [|c s IH]; simpl; intros H; [reflexivity|].
  apply andb_prop in H as [H1 H2]. now rewrite IH, H1.
Qed.

Lemma trim_end_app_spaces (tok post : string) :
  all_of isspace post = true -> trim_end (tok ++ post) = trim_end tok.
Proof.
  intros Hp. induction tok as [|c tok IH]; simpl.
  - now apply trim_end_spaces.
  - now rewrite IH.
Qed.

Lemma starts_solid_skip_ws (s r : string) :
  starts_solid s = true -> skip_ws (s ++ r) = s ++ r.
Proof.
  destruct s as [|c s]; simpl; [discriminate|].
  intros H. apply negb_true_iff in H. now rewrite H.
Qed.

(** A round of the loop on leading white space leaves the round to what
    follows. *)
Lemma preferred_loop_space (fuel room : nat) (c : ascii) (p : string) :
  isspace c = true ->
  preferred_loop (S fuel) room (String c p)
  = preferred_loop (S fuel) room p.
Proof.
  intros Hc. destruct room as [|room]; [reflexivity|].
  cbn [preferred_loop skip_ws]. rewrite Hc.
  destruct p as [|d p]; reflexivity.
Qed.

(** A round on an empty element consumes its comma. *)
Lemma preferred_loop_comma (fuel room : nat) (p : string) :
  preferred_loop (S fuel) room (String "," p) = preferred_loop fuel room p.
Proof.
  destruct room as [|room]; [now destruct fuel|]. reflexivity.
Qed.

(** The first element the loop yields: leading empty elements are passed
    over, the token is trimmed and lower-cased. *)
Lemma preferred_loop_first (pre tok post rest : string) (fuel room : nat) :
  all_of is_space_or_comma pre = true ->
  starts_solid tok = true -> free_of is_comma tok = true ->
  trim_end tok = tok ->
  all_of isspace post = true ->
  (rest = "" \/ exists r, rest = String "," r) ->
  String.length (pre ++ tok ++ post ++ rest) < fuel ->
  exists more,
    preferred_loop fuel (S room) (pre ++ tok ++ post ++ rest)
    = lowercase tok :: more.
Proof.
  intros Hpre Hsolid Hfree Htrim Hpost Hrest. revert fuel.
  induction pre as [|c pre IH]; intros fuel Hlen.
  - destruct fuel as [|fuel]; [inversion Hlen|].
    change ("" ++ tok ++ post ++ rest) with (tok ++ post ++ rest).
    assert (Hscan : scan_until is_comma (tok ++ post ++ rest)
                    = (tok ++ post, rest)).
    { rewrite <- append_assoc.
      assert (Hf : free_of is_comma (tok ++ post) = true)
        by auto using free_of_app, spaces_free_of_comma.
      destruct Hrest as [->|(r & ->)].
      - rewrite append_empty_r. now apply scan_until_all.
      - now apply scan_until_token. }
    cbn [preferred_loop].
    rewrite (starts_solid_skip_ws _ _ Hsolid), Hscan.
    rewrite (trim_end_app_spaces _ _ Hpost), Htrim.
    destruct tok as [|t tok]; [discriminate|].
    cbn [append]. eexists. reflexivity.
  - simpl in Hpre. apply andb_prop in Hpre as [Hc Hpre].
    destruct fuel as [|fuel]; [inversion Hlen|].
    cbn [append] in *. simpl in Hlen.
    unfold is_space_or_comma in Hc. apply orb_prop in Hc as [Hc|Hc].
    + rewrite (preferred_loop_space _ _ _ _ Hc). apply IH; auto. lia.
    + unfold is_comma in Hc. apply Ascii.eqb_eq in Hc. subst c.
      rewrite preferred_loop_comma. apply IH; auto. lia.
Qed.

(** C5 (as stated, refuted).  With the header absent, filter returns the
    first preferred type lower-cased, not the substring of the argument. *)
Lemma filter_first_preferred_not_verbatim :
  vmod_filter None (Some "Text/HTML, image/png") = "text/html"
  /\ "text/html" <> "Text/HTML".
Proof. split; [vm_compute; reflexivity | discriminate]. Qed.

(** C5 (amended).  When the header is null or empty and the preferred
    argument is non-empty, filter returns the first non-empty element of the
    preferred list with its surrounding white space removed and its letters
    lower-cased; empty elements in front of it are passed over. *)
Theorem filter_absent_header_first_preferred
    (h : option string) (pre tok post rest : string) :
  absent h = true ->
  all_of is_space_or_comma pre = true ->
  starts_solid tok = true -> free_of is_comma tok = true ->
  trim_end tok = tok ->
  all_of isspace post = true ->
  (rest = "" \/ exists r, rest = String "," r) ->
  vmod_filter h (Some (pre ++ tok ++ post ++ rest)) = lowercase tok.
Proof.
  intros Hh Hpre Hsolid Hfree Htrim Hpost Hrest.
  unfold vmod_filter.
  assert (Hp : absent (Some (pre ++ tok ++ post ++ rest)) = false).
  { destruct tok as [|t tok]; [discriminate|].
    destruct pre; reflexivity. }
  rewrite Hp, Hh.
  unfold parse_preferred_types, MAX_MEDIA_TYPES.
  destruct (preferred_loop_first pre tok post rest
              (S (String.length (pre ++ tok ++ post ++ rest))) 63
              Hpre Hsolid Hfree Htrim Hpost Hrest (Nat.lt_succ_diag_r _))
    as (more & ->).
  reflexivity.
Qed.

Lemma filter_absent_header_first_preferred_witness :
  vmod_filter (Some "") (Some (" , ," ++ "Text/HTML" ++ "  " ++ ",image/png"))
  = "text/html".
Proof.
  refine (filter_absent_header_first_preferred
            (Some "") " , ," "Text/HTML" "  " ",image/png" _ _ _ _ _ _ _).
  - reflexivity.
  - reflexivity.
  - reflexivity.
  - reflexivity.
  - reflexivity.
  - reflexivity.
  - right. exists "image/png". reflexivity.
Defined.

(* ================================================================== *)
(** * Sorting *)
(* ================================================================== *)

Lemma sort_media_types_qsort (l : acceptnorm_state) :
  sort_media_types l = qsort l.
Proof. destruct l as [|x [|y l]]; reflexivity. Qed.

(** The comparison is total: of two entries one does not come after the
    other. *)
Lemma media_type_cmp_total (x y : media_type) :
  media_type_cmp x y = Gt -> media_type_cmp y x <> Gt.
Proof.
  unfold media_type_cmp, dgt, dlt, strcmp.
  destruct (SFltb (quality y) (quality x)); [discriminate|].
  destruct (SFltb (quality x) (quality y)); [discriminate|].
  rewrite (String.compare_antisym (type y) (type x)).
  intros ->. discriminate.
Qed.

Lemma qsort_insert_ranked (x : media_type) (l : list media_type) :
  ranked l = true -> ranked (qsort_insert x l) = true.
Proof.
  induction l as [|y l IH]; intros Hl; [reflexivity|].
  cbn [qsort_insert].
  destruct (media_type_cmp x y) eqn:Hxy.
  - cbn [ranked]. now rewrite Hxy.
  - cbn [ranked]. now rewrite Hxy.
  - assert (Hyx := media_type_cmp_total _ _ Hxy).
    assert (Hl' : ranked l = true).
    { destruct l as [|z l]; [reflexivity|]. cbn [ranked] in Hl.
      now destruct (media_type_cmp y z). }
    specialize (IH Hl').
    destruct l as [|z l].
    + cbn [qsort_insert ranked].
      now destruct (media_type_cmp y x).
    + cbn [qsort_insert] in *.
      destruct (media_type_cmp x z) eqn:Hxz; cbn [ranked] in *;
        try (destruct (media_type_cmp y x); [assumption..|congruence]);
        destruct (media_type_cmp y z); try discriminate; assumption.
Qed.

Lemma qsort_ranked (l : list media_type) : ranked (qsort l) = true.
Proof.
  induction l as [|x l IH]; [reflexivity|].
  now apply qsort_insert_ranked.
Qed.

(** A ranked list is left as it is. *)
Lemma qsort_fixed (l : list media_type) : ranked l = true -> qsort l = l.
Proof.
  induction l as [|x l IH]; intros Hl; [reflexivity|].
  cbn [qsort]. destruct l as [|y l]; [reflexivity|].
  cbn [ranked] in Hl.
  destruct (media_type_cmp x y) eqn:Hxy; try discriminate;
    rewrite (IH Hl); cbn [qsort_insert]; now rewrite Hxy.
Qed.

Lemma qsort_insert_in (x e : media_type) (l : list media_type) :
  In e (qsort_insert x l) <-> e = x \/ In e l.
Proof.
  induction l as [|y l IH]; cbn [qsort_insert].
  - simpl. intuition.
  - destruct (media_type_cmp x y); simpl in *; intuition.
Qed.

Lemma qsort_in (e : media_type) (l : list media_type) :
  In e (qsort l) <-> In e l.
Proof.
  induction l as [|x l IH]; [reflexivity|].
  cbn [qsort]. rewrite qsort_insert_in. simpl. intuition.
Qed.

Lemma qsort_insert_length (x : media_type) (l : list media_type) :
  List.length (qsort_insert x l) = S (List.length l).
Proof.
  induction l as [|y l IH]; [reflexivity|].
  cbn [qsort_insert]. destruct (media_type_cmp x y); simpl; auto.
Qed.

Lemma qsort_length (l : list media_type) :
  List.length (qsort l) = List.length l.
Proof.
  induction l as [|x l IH]; [reflexivity|].
  cbn [qsort]. now rewrite qsort_insert_length, IH.
Qed.

(* ================================================================== *)
(** * What the parser stores *)
(* ================================================================== *)

Lemma isspace_tolower (c : ascii) : isspace (tolower c) = isspace c.
Proof. destruct c as [[] [] [] [] [] [] [] []]; reflexivity. Qed.

Lemma separator_tolower (c : ascii) :
  is_semi_or_comma (tolower c) = is_semi_or_comma c.
Proof. destruct c as [[] [] [] [] [] [] [] []]; reflexivity. Qed.

Lemma tolower_tolower (c : ascii) : tolower (tolower c) = tolower c.
Proof. destruct c as [[] [] [] [] [] [] [] []]; reflexivity. Qed.

Lemma lowercase_lowercase (s : string) : lowercase (lowercase s) = lowercase s.
Proof.
  induction s as [|c s IH]; simpl; [reflexivity|].
  now rewrite tolower_tolower, IH.
Qed.

Lemma trim_end_lowercase (s : string) :
  trim_end (lowercase s) = lowercase (trim_end s).
Proof.
  induction s as [|c s IH]; simpl; [reflexivity|].
  rewrite IH, isspace_tolower.
  destruct (trim_end s); simpl; [destruct (isspace c)|]; reflexivity.
Qed.

Lemma trim_end_trim_end (s : string) : trim_end (trim_end s) = trim_end s.
Proof.
  induction s as [|c s IH]; simpl; [reflexivity|].
  destruct (trim_end s) as [|d r] eqn:E.
  - destruct (isspace c) eqn:Hc; simpl; [reflexivity | now rewrite Hc].
  - cbn [trim_end] in *. now rewrite IH.
Qed.

Lemma free_of_trim_end (stop : ascii -> bool) (s : string) :
  free_of stop s = true -> free_of stop (trim_end s) = true.
Proof.
  induction s as [|c s IH]; simpl; intros H; [reflexivity|].
  apply andb_prop in H as [H1 H2]. specialize (IH H2).
  destruct (trim_end s); [destruct (isspace c)|]; simpl in *;
    rewrite ?H1, ?IH; reflexivity.
Qed.

Lemma free_of_lowercase (s : string) :
  free_of is_semi_or_comma s = true ->
  free_of is_semi_or_comma (lowercase s) = true.
Proof.
  induction s as [|c s IH]; simpl; intros H; [reflexivity|].
  apply andb_prop in H as [H1 H2].
  now rewrite separator_tolower, H1, IH.
Qed.

(** The token a scan passes over holds no stop character. *)
Lemma scan_until_free (stop : ascii -> bool) (p tok r : string) :
  scan_until stop p = (tok, r) -> free_of stop tok = true.
Proof.
  revert tok r. induction p as [|c p IH]; simpl; intros tok r E.
  - now injection E as <- _.
  - destruct (stop c) eqn:Hc; [now injection E as <- _|].
    destruct (scan_until stop p) as [tok' r'].
    injection E as <- _. simpl. now rewrite Hc, (IH _ _ eq_refl).
Qed.

Lemma skip_ws_solid (p : string) (c : ascii) (r : string) :
  skip_ws p = String c r -> isspace c = false.
Proof.
  induction p as [|d p IH]; simpl; [discriminate|].
  destruct (isspace d) eqn:Hd; [exact IH|].
  intros E. now injection E as <- _.
Qed.

Lemma trim_end_solid (s : string) :
  starts_solid s = true -> trim_end s <> "" -> starts_solid (trim_end s) = true.
Proof.
  destruct s as [|c s]; simpl; [discriminate|]. intros Hc _.
  destruct (trim_end s); [|exact Hc].
  apply negb_true_iff in Hc. rewrite Hc. simpl. now rewrite Hc.
Qed.

Lemma lowercase_solid (s : string) :
  starts_solid s = true -> starts_solid (lowercase s) = true.
Proof. destruct s as [|c s]; simpl; [auto|]. now rewrite isspace_tolower. Qed.

Lemma scan_until_solid (stop : ascii -> bool) (c : ascii) (p tok r : string) :
  isspace c = false -> scan_until stop (String c p) = (tok, r) ->
  tok = "" \/ starts_solid tok = true.
Proof.
  simpl. intros Hc. destruct (stop c).
  - intros E. injection E as <- _. now left.
  - destruct (scan_until stop p) as [tok' r'].
    intros E. injection E as <- _. right. simpl. now rewrite Hc.
Qed.

(** The type of an entry the parser produces is well formed. *)
Lemma parse_media_type_wf (p ty rest : string) (q : double) :
  parse_media_type p = Some (ty, q, rest) -> wf_type ty = true.
Proof.
  unfold parse_media_type.
  destruct (skip_ws p) as [|c p0] eqn:Ep; [discriminate|].
  apply skip_ws_solid in Ep.
  destruct (scan_until is_semi_or_comma (String c p0)) as [tok p1] eqn:Es.
  pose proof (scan_until_free _ _ _ _ Es) as Hfree.
  pose proof (scan_until_solid _ _ _ _ _ Ep Es) as Hsolid.
  destruct (trim_end tok) as [|t0 t] eqn:Et; [discriminate|].
  destruct (parse_params (S (String.length p1)) p1 d_one) as [q' p2].
  rewrite <- Et. intros E. injection E as <- _ _.
  destruct Hsolid as [->|Hsolid]; [discriminate|].
  unfold wf_type.
  rewrite lowercase_solid
    by (apply trim_end_solid; [assumption | rewrite Et; discriminate]).
  rewrite free_of_lowercase by now apply free_of_trim_end.
  rewrite trim_end_lowercase, trim_end_trim_end, lowercase_lowercase.
  now rewrite !String.eqb_refl.
Qed.

Lemma parse_entries_wf (room : nat) (p : string) (e : media_type) :
  In e (parse_entries room p) -> wf_type (type e) = true.
Proof.
  revert p. induction room as [|room IH]; intros p; simpl; [intros []|].
  destruct p as [|c p]; [intros []|].
  destruct (parse_media_type (String c p)) as [[[ty q] rest]|] eqn:E;
    [|intros []].
  intros [<-|H]; [|now apply IH in H].
  simpl. now apply parse_media_type_wf in E.
Qed.

Lemma parse_entries_length (room : nat) (p : string) :
  List.length (parse_entries room p) <= room.
Proof.
  revert p. induction room as [|room IH]; intros p; simpl; [lia|].
  destruct p as [|c p]; [simpl; lia|].
  destruct (parse_media_type (String c p)) as [[[ty q] rest]|];
    [|simpl; lia].
  simpl. specialize (IH rest). lia.
Qed.

(* ================================================================== *)
(** * Reading back what was written *)
(* ================================================================== *)

Lemma same_double_eq (a b : double) : same_double a b = true -> a = b.
Proof.
  destruct a as [s|s| |s m e], b as [t|t| |t n f]; simpl; try discriminate;
    try reflexivity.
  - intros H. apply Bool.eqb_prop in H. now subst.
  - intros H. apply Bool.eqb_prop in H. now subst.
  - intros H. apply andb_prop in H as [H He]. apply andb_prop in H as [Hs Hm].
    apply Bool.eqb_prop in Hs. apply Pos.eqb_eq in Hm. apply Z.eqb_eq in He.
    now subst.
Qed.

Lemma one_decimal_cases (q : double) :
  one_decimal q = true -> In q tenths.
Proof.
  unfold one_decimal. rewrite existsb_exists.
  intros (t & Hin & Heq). apply same_double_eq in Heq. now subst.
Qed.

(** A quality below 1.0 among [tenths] is printed as a numeral that
    [strtod] reads back to the same double, up to the separator. *)
Lemma strtod_printf_tenth (q : double) (r : string) :
  one_decimal q = true -> dlt q d_one = true ->
  (r = "" \/ exists x, r = String "," x) ->
  strtod (skip_ws (printf_1f q ++ r)) = (q, r) /\ clamp q = q.
Proof.
  intros Hq Hlt Hr. apply one_decimal_cases in Hq.
  vm_compute in Hq.
  repeat (destruct Hq as [<-|Hq]; [|]); try contradiction;
    try (vm_compute in Hlt; discriminate);
    (destruct Hr as [->|(x & ->)]; split; vm_compute; reflexivity).
Qed.

Lemma wf_type_parts (ty : string) :
  wf_type ty = true ->
  starts_solid ty = true /\ free_of is_semi_or_comma ty = true /\
  trim_end ty = ty /\ lowercase ty = ty.
Proof.
  unfold wf_type. intros H.
  apply andb_prop in H as [H H4]. apply andb_prop in H as [H H3].
  apply andb_prop in H as [H1 H2].
  apply String.eqb_eq in H3, H4. auto.
Qed.

(** The parser reads an entry back from its text, whatever white space
    stands before it, when the text ends there or a comma follows. *)
Lemma parse_media_type_entry_text (lead r : string) (e : media_type) :
  all_of isspace lead = true ->
  wf_type (type e) = true -> one_decimal (quality e) = true ->
  (r = "" \/ exists x, r = String "," x) ->
  parse_media_type (lead ++ entry_text e ++ r)
  = Some (type e, quality e, after_comma r).
Proof.
  intros Hlead Hwf Hq Hr.
  destruct e as [ty q]. cbn [type quality] in *.
  apply wf_type_parts in Hwf as (Hsolid & Hfree & Htrim & Hlower).
  assert (Hstop : forall fuel q0, parse_params fuel r q0 = (q0, r)).
  { intros fuel q0. apply parse_params_stop.
    destruct Hr as [->|(x & ->)]; intros r0; discriminate. }
  assert (Hrest : (let p := skip_ws r in
                   match p with
                   | String c p' => if Ascii.eqb c "," then p' else p
                   | EmptyString => p
                   end) = after_comma r).
  { destruct Hr as [->|(x & ->)]; reflexivity. }
  unfold parse_media_type, entry_text. cbn [type quality].
  rewrite (skip_ws_spaces _ _ Hlead), append_assoc.
  rewrite (starts_solid_skip_ws _ _ Hsolid).
  destruct (ty ++ (if dlt q d_one then ";q=" ++ printf_1f q else "") ++ r)
    as [|c0 p0] eqn:E0.
  { destruct ty; discriminate. }
  rewrite <- E0. clear E0 c0 p0.
  destruct (dlt q d_one) eqn:Hlt.
  - change ((";q=" ++ printf_1f q) ++ r)
      with (String ";" ("q=" ++ printf_1f q ++ r)).
    rewrite (scan_until_token is_semi_or_comma ty ";" _ Hfree eq_refl), Htrim.
    destruct ty as [|t0 ty']; [discriminate|].
    rewrite Hlower.
    change (String ";" ("q=" ++ printf_1f q ++ r))
      with (";q=" ++ printf_1f q ++ r).
    rewrite parse_params_q.
    destruct (strtod_printf_tenth q r Hq Hlt Hr) as [-> ->].
    rewrite Hstop. cbv zeta in Hrest. now rewrite Hrest.
  - assert (Hone : q = d_one).
    { apply one_decimal_cases in Hq. vm_compute in Hq.
      repeat (destruct Hq as [<-|Hq]; [|]); try contradiction;
        try (vm_compute in Hlt; discriminate). reflexivity. }
    change ("" ++ r) with r.
    assert (Hscan : scan_until is_semi_or_comma (ty ++ r) = (ty, r)).
    { destruct Hr as [->|(x & ->)].
      - rewrite append_empty_r. now apply scan_until_all.
      - now apply scan_until_token. }
    rewrite Hscan, Htrim.
    destruct ty as [|t0 ty']; [discriminate|].
    rewrite Hlower, Hstop. cbv zeta in Hrest. now rewrite Hrest, Hone.
Qed.

Lemma parse_entries_empty (room : nat) : parse_entries room "" = [].
Proof. destruct room; reflexivity. Qed.

(** A list of well-formed entries is read back from its text. *)
Lemma parse_entries_build (l : list media_type) :
  forall (room : nat) (e : media_type) (lead : string),
    (forall x, In x (e :: l) ->
               wf_type (type x) = true /\ one_decimal (quality x) = true) ->
    List.length (e :: l) <= room ->
    all_of isspace lead = true ->
    parse_entries room (lead ++ entry_text e ++ build_rest l) = e :: l.
Proof.
  induction l as [|e' l IH]; intros room e lead Hwf Hlen Hlead;
    (destruct room as [|room]; [simpl in Hlen; lia|]);
    destruct (Hwf e (or_introl eq_refl)) as [Ht Hq].
  - cbn [parse_entries build_rest].
    rewrite (parse_media_type_entry_text lead "" e Hlead Ht Hq
               (or_introl eq_refl)).
    cbn [after_comma]. rewrite parse_entries_empty.
    destruct (lead ++ entry_text e ++ "") eqn:E.
    + apply wf_type_parts in Ht as (Hs & _).
      destruct e as [ty q]. unfold entry_text in E. cbn [type] in *.
      destruct lead, ty; discriminate.
    + now destruct e.
  - cbn [parse_entries build_rest].
    change (", " ++ entry_text e' ++ build_rest l)
      with (String "," (" " ++ entry_text e' ++ build_rest l)).
    rewrite (parse_media_type_entry_text lead _ e Hlead Ht Hq
               (or_intror (ex_intro _ _ eq_refl))).
    cbn [after_comma]. change (Ascii.eqb "," ",") with true. cbv iota.
    rewrite IH.
    + destruct (lead ++ entry_text e ++ _) eqn:E.
      * apply wf_type_parts in Ht as (Hs & _).
        destruct e as [ty q]. unfold entry_text in E. cbn [type] in *.
        destruct lead, ty; discriminate.
      * now destruct e.
    + intros x Hx. apply Hwf. now right.
    + simpl in *. lia.
    + reflexivity.
Qed.

Lemma parse_entries_build_accept_string (l : list media_type) (room : nat) :
  (forall x, In x l ->
             wf_type (type x) = true /\ one_decimal (quality x) = true) ->
  List.length l <= room ->
  parse_entries room (build_accept_string l) = l.
Proof.
  destruct l as [|e l]; intros Hwf Hlen.
  - apply parse_entries_empty.
  - apply (parse_entries_build l room e "" Hwf Hlen eq_refl).
Qed.

(** C2 (as stated, refuted).  The quality 0.96 is written as 1.0, and an
    entry of quality 1.0 is written without [;q=]: canonicalize maps
    "text/html;q=0.96" to "text/html;q=1.0" and that to "text/html". *)
Lemma canonicalize_not_idempotent :
  vmod_canonicalize (Some "text/html;q=0.96") = "text/html;q=1.0"
  /\ vmod_canonicalize (Some (vmod_canonicalize (Some "text/html;q=0.96")))
     = "text/html"
  /\ "text/html" <> "text/html;q=1.0".
Proof. repeat split; try (vm_compute; reflexivity). discriminate. Qed.

(** C2 (amended).  For every header whose parsed qualities are all among
    the doubles denoted by 0.0, 0.1, ..., 0.9, 1.0, canonicalize is
    idempotent: canonicalize(canonicalize(h)) equals canonicalize(h), where
    canonicalize parses h, sorts the entries by quality descending then type
    ascending, and writes them with [;q=] and one decimal for the qualities
    below 1.0 only. *)
Theorem canonicalize_idempotent_on_tenths (h : option string) :
  (forall e, In e (parse_accept_header h) -> one_decimal (quality e) = true) ->
  vmod_canonicalize (Some (vmod_canonicalize h)) = vmod_canonicalize h.
Proof.
  intros Hq. unfold vmod_canonicalize at 2 3.
  destruct (absent h) eqn:Hh; [reflexivity|].
  rewrite sort_media_types_qsort.
  assert (Hwf : forall x, In x (qsort (parse_accept_header h)) ->
                wf_type (type x) = true /\ one_decimal (quality x) = true).
  { intros x Hx. apply (proj1 (qsort_in _ _)) in Hx.
    split; [|now apply Hq].
    destruct h as [h|]; [|destruct Hx]. now apply parse_entries_wf in Hx. }
  assert (Hlen : List.length (qsort (parse_accept_header h))
                 <= MAX_MEDIA_TYPES).
  { rewrite qsort_length. destruct h as [h|]; [|simpl; lia].
    apply parse_entries_length. }
  unfold vmod_canonicalize.
  destruct (absent (Some (build_accept_string
                            (qsort (parse_accept_header h))))) eqn:Hb.
  - destruct (build_accept_string (qsort (parse_accept_header h)));
      [reflexivity | discriminate].
  - unfold parse_accept_header at 1.
    rewrite (parse_entries_build_accept_string _ _ Hwf Hlen).
    rewrite sort_media_types_qsort.
    now rewrite (qsort_fixed _ (qsort_ranked _)).
Qed.

Lemma canonicalize_idempotent_on_tenths_witness :
  vmod_canonicalize
    (Some (vmod_canonicalize
             (Some "*/*;q=0.8, Text/HTML, application/xhtml+xml ; Q=0.90")))
  = vmod_canonicalize
      (Some "*/*;q=0.8, Text/HTML, application/xhtml+xml ; Q=0.90").
Proof.
  refine (canonicalize_idempotent_on_tenths
            (Some "*/*;q=0.8, Text/HTML, application/xhtml+xml ; Q=0.90") _).
  intros e He. vm_compute in He.
  destruct He as [<-|[<-|[<-|[]]]]; vm_compute; reflexivity.
Defined.

(* ================================================================== *)
(** * The loops end before their fuel does *)
(* ================================================================== *)

Lemma skip_ws_length (p : string) :
  String.length (skip_ws p) <= String.length p.
Proof.
  induction p as [|c p IH]; simpl; [lia|].
  destruct (isspace c); simpl; lia.
Qed.

Lemma scan_until_length (stop : ascii -> bool) (p : string) :
  String.length (snd (scan_until stop p)) <= String.length p.
Proof.
  induction p as [|c p IH]; simpl; [lia|].
  destruct (stop c); simpl; [lia|].
  destruct (scan_until stop p) as [tok r]. simpl in *. lia.
Qed.

Lemma read_digits_length (base : N) (s : string) (m : N) (n : nat) :
  String.length (snd (read_digits base s m n)) <= String.length s.
Proof.
  revert m n. induction s as [|c s IH]; intros m n; simpl; [lia|].
  destruct (digit_of base c); simpl; [|lia].
  specialize (IH (m * base + n0)%N (S n)). lia.
Qed.

Lemma read_mantissa_length (base : N) (s r : string) (m : N) (n : nat) :
  read_mantissa base s = Some (m, n, r) ->
  String.length r <= String.length s.
Proof.
  unfold read_mantissa.
  pose proof (read_digits_length base s 0%N O) as H1.
  destruct (read_digits base s 0%N O) as [[m1 n1] s1]. simpl in H1.
  destruct s1 as [|c s2].
  - destruct (n1 =? 0)%nat; [discriminate|]. intros E. injection E as _ _ <-.
    exact H1.
  - destruct (Ascii.eqb c ".").
    + pose proof (read_digits_length base s2 m1 O) as H2.
      destruct (read_digits base s2 m1 O) as [[m2 n2] s3]. simpl in *.
      destruct (n1 + n2 =? 0)%nat; [discriminate|].
      intros E. injection E as _ _ <-. lia.
    + destruct (n1 =? 0)%nat; [discriminate|]. intros E. injection E as _ _ <-.
      exact H1.
Qed.

Lemma read_exponent_length (lo up : ascii) (s : string) :
  String.length (snd (read_exponent lo up s)) <= String.length s.
Proof.
  unfold read_exponent. destruct s as [|c s1]; [simpl; lia|].
  destruct (Ascii.eqb c lo || Ascii.eqb c up); [|simpl; lia].
  assert (H : forall s2, String.length s2 <= String.length s1 ->
            forall neg : bool,
            String.length
              (snd (let '(e, n, s3) := read_digits 10 s2 0%N O in
                    if (n =? 0)%nat then (0%Z, String c s1)
                    else ((if neg then - Z.of_N e else Z.of_N e)%Z, s3)))
            <= String.length (String c s1)).
  { intros s2 Hs2 neg.
    pose proof (read_digits_length 10 s2 0%N O) as H.
    destruct (read_digits 10 s2 0%N O) as [[e n] s3]. simpl in H.
    destruct (n =? 0)%nat; simpl; lia. }
  destruct s1 as [|d s2]; [apply (H "" (le_n _) false)|].
  destruct (Ascii.eqb d "-"); [apply (H s2 (Nat.le_succ_diag_r _) true)|].
  destruct (Ascii.eqb d "+");
    [apply (H s2 (Nat.le_succ_diag_r _) false)
    |apply (H (String d s2) (le_n _) false)].
Qed.

Lemma match_nocase_length (lit s r : string) :
  match_nocase lit s = Some r -> String.length r <= String.length s.
Proof.
  revert s. induction lit as [|l lit IH]; intros s; simpl.
  - intros E. injection E as <-. lia.
  - destruct s as [|c s]; [discriminate|].
    destruct (Ascii.eqb (tolower c) l); [|discriminate].
    intros E. apply IH in E. simpl. lia.
Qed.

Lemma read_nchars_length (s r : string) :
  read_nchars s = Some r -> String.length r <= String.length s.
Proof.
  induction s as [|c s IH]; simpl; [discriminate|].
  destruct (Ascii.eqb c ")").
  - intros E. injection E as <-. lia.
  - destruct (isdigit c || isalpha c || Ascii.eqb c "_"); [|discriminate].
    intros E. apply IH in E. lia.
Qed.

Lemma read_hex_length (neg : bool) (s r : string) (v : double) :
  read_hex neg s = Some (v, r) -> String.length r <= String.length s.
Proof.
  unfold read_hex. destruct s as [|z [|x s1]]; try discriminate.
  destruct (Ascii.eqb z "0" && Ascii.eqb (tolower x) "x"); [|discriminate].
  destruct (read_mantissa 16 s1) as [[[m n] s2]|] eqn:Em; [|discriminate].
  apply read_mantissa_length in Em.
  pose proof (read_exponent_length "p" "P" s2) as He.
  destruct (read_exponent "p" "P" s2) as [e s3]. simpl in He.
  intros E. injection E as _ <-. simpl. lia.
Qed.

Lemma read_dec_length (neg : bool) (s r : string) (v : double) :
  read_dec neg s = Some (v, r) -> String.length r <= String.length s.
Proof.
  unfold read_dec.
  destruct (read_mantissa 10 s) as [[[m n] s2]|] eqn:Em; [|discriminate].
  apply read_mantissa_length in Em.
  pose proof (read_exponent_length "e" "E" s2) as He.
  destruct (read_exponent "e" "E" s2) as [e s3]. simpl in He.
  intros E. injection E as _ <-. lia.
Qed.

Lemma read_inf_length (neg : bool) (s r : string) (v : double) :
  read_inf neg s = Some (v, r) -> String.length r <= String.length s.
Proof.
  unfold read_inf.
  destruct (match_nocase "inf" s) as [s1|] eqn:E1; [|discriminate].
  apply match_nocase_length in E1.
  destruct (match_nocase "inity" s1) as [s2|] eqn:E2.
  - apply match_nocase_length in E2. intros E. injection E as _ <-. lia.
  - intros E. injection E as _ <-. lia.
Qed.

Lemma read_nan_length (s r : string) (v : double) :
  read_nan s = Some (v, r) -> String.length r <= String.length s.
Proof.
  unfold read_nan.
  destruct (match_nocase "nan" s) as [s1|] eqn:E1; [|discriminate].
  apply match_nocase_length in E1.
  destruct s1 as [|c s2].
  - intros E. injection E as _ <-. exact E1.
  - destruct (Ascii.eqb c "(").
    + destruct (read_nchars s2) as [s3|] eqn:E3.
      * apply read_nchars_length in E3. intros E. injection E as _ <-.
        simpl in *. lia.
      * intros E. injection E as _ <-. exact E1.
    + intros E. injection E as _ <-. exact E1.
Qed.

(** The end pointer of [strtod] is a position of its input: what is left
    is never longer than the input. *)
Lemma strtod_length (s : string) :
  String.length (snd (strtod s)) <= String.length s.
Proof.
  unfold strtod.
  pose proof (skip_ws_length s) as H0.
  change skip_ws with skip_space in H0.
  assert (H : forall (neg : bool) (s1 : string),
             String.length s1 <= String.length s ->
             String.length
               (snd match first_of (read_hex neg s1)
                            (first_of (read_dec neg s1)
                               (first_of (read_inf neg s1) (read_nan s1)))
                    with
                    | Some r => r
                    | None => (d_zero, s)
                    end) <= String.length s).
  { intros neg s1 Hs1. unfold first_of.
    destruct (read_hex neg s1) as [[v r]|] eqn:E1.
    { apply read_hex_length in E1. simpl. lia. }
    destruct (read_dec neg s1) as [[v r]|] eqn:E2.
    { apply read_dec_length in E2. simpl. lia. }
    destruct (read_inf neg s1) as [[v r]|] eqn:E3.
    { apply read_inf_length in E3. simpl. lia. }
    destruct (read_nan s1) as [[v r]|] eqn:E4.
    { apply read_nan_length in E4. simpl. lia. }
    simpl. lia. }
  destruct (skip_space s) as [|c s'] eqn:Es; [apply H; simpl; lia|].
  simpl in H0.
  destruct (Ascii.eqb c "-"); [apply H; lia|].
  destruct (Ascii.eqb c "+"); apply H; simpl; lia.
Qed.

(** [parse_params] gives the same result for every fuel above the length
    of its input. *)
Lemma parse_params_fuel (f1 f2 : nat) (p : string) (q : double) :
  String.length p < f1 -> String.length p < f2 ->
  parse_params f1 p q = parse_params f2 p q.
Proof.
  revert f2 p q. induction f1 as [|f1 IH]; intros f2 p q H1 H2; [lia|].
  destruct f2 as [|f2]; [lia|].
  cbn [parse_params].
  destruct p as [|c p1]; [reflexivity|].
  destruct (Ascii.eqb c ";"); [|reflexivity].
  simpl in H1, H2.
  pose proof (skip_ws_length p1) as Hs.
  pose proof (scan_until_length is_eq_semi_or_comma (skip_ws p1)) as Hn.
  destruct (scan_until is_eq_semi_or_comma (skip_ws p1)) as [name p2].
  simpl in Hn.
  destruct p2 as [|c2 p3]; [apply IH; simpl; lia|].
  simpl in Hn.
  assert (Hskip : forall q0,
             (let '(_, p4) := scan_until is_semi_or_comma p3 in
              parse_params f1 p4 q0)
             = (let '(_, p4) := scan_until is_semi_or_comma p3 in
                parse_params f2 p4 q0)).
  { intros q0.
    pose proof (scan_until_length is_semi_or_comma p3) as Hv.
    destruct (scan_until is_semi_or_comma p3) as [val p4]. simpl in Hv.
    apply IH; lia. }
  destruct (Ascii.eqb c2 "="); [|apply IH; simpl; lia].
  destruct name as [|n [|n' name]]; try apply Hskip.
  destruct (Ascii.eqb (tolower n) "q"); [|apply Hskip].
  pose proof (strtod_length (skip_ws p3)) as Hv.
  pose proof (skip_ws_length p3) as Hs3.
  destruct (strtod (skip_ws p3)) as [v p4]. simpl in Hv.
  apply IH; lia.
Qed.

(** A scan stops at the end of the input or on a stop character. *)
Lemma scan_until_stop (stop : ascii -> bool) (p tok r : string) :
  scan_until stop p = (tok, r) ->
  r = "" \/ exists c r', r = String c r' /\ stop c = true.
Proof.
  revert tok. induction p as [|x p IH]; simpl; intros tok E.
  - injection E as _ <-. now left.
  - destruct (stop x) eqn:Hx.
    + injection E as _ <-. right. eauto.
    + destruct (scan_until stop p) as [t' r'].
      injection E as _ <-. now apply (IH _ eq_refl).
Qed.

(** Likewise for the loop of [parse_preferred_types]. *)
Lemma preferred_loop_fuel (f1 f2 room : nat) (p : string) :
  String.length p < f1 -> String.length p < f2 ->
  preferred_loop f1 room p = preferred_loop f2 room p.
Proof.
  revert f2 room p. induction f1 as [|f1 IH]; intros f2 room p H1 H2; [lia|].
  destruct f2 as [|f2]; [lia|].
  destruct room as [|room]; [reflexivity|].
  cbn [preferred_loop].
  destruct p as [|c p]; [reflexivity|].
  pose proof (skip_ws_length (String c p)) as Hs.
  destruct (skip_ws (String c p)) as [|d p0]; [reflexivity|].
  pose proof (scan_until_length is_comma (String d p0)) as Hn.
  destruct (scan_until is_comma (String d p0)) as [tok p1] eqn:Es.
  simpl in Hn, Hs, H1, H2.
  assert (Hp1 : String.length
                  match p1 with
                  | String c0 r => if Ascii.eqb c0 "," then r else p1
                  | EmptyString => p1
                  end <= String.length p0).
  { destruct p1 as [|c1 r]; [simpl; lia|].
    destruct (Ascii.eqb c1 ",") eqn:Hc; [simpl in *; lia|].
    (* the scan stops on a comma or at the end only *)
    exfalso. apply scan_until_stop in Es.
    destruct Es as [E|(x & r0 & E & Hx)]; [discriminate|].
    injection E as -> _. unfold is_comma in Hx. congruence. }
  destruct (trim_end tok); [apply IH; lia|].
  f_equal. apply IH; lia.
Qed.

(* ================================================================== *)
(** * Sorting, whatever the procedure *)
(* ================================================================== *)

(** The order of [qsort]'s result does not depend on the sorting procedure,
    as long as no quality is NaN and entries that compare equal are equal
    (two entries that differ only in the sign of a zero quality are not). *)

Lemma ascii_compare_lt_trans (a b c : ascii) :
  Ascii.compare a b = Lt -> Ascii.compare b c = Lt -> Ascii.compare a c = Lt.
Proof.
  unfold Ascii.compare. rewrite !N.compare_lt_iff. lia.
Qed.

Lemma ascii_compare_eq (a b : ascii) : Ascii.compare a b = Eq -> a = b.
Proof.
  unfold Ascii.compare. rewrite N.compare_eq_iff. intros H.
  rewrite <- (ascii_N_embedding a), <- (ascii_N_embedding b). now rewrite H.
Qed.

Lemma strcmp_lt_trans (a b c : string) :
  strcmp a b = Lt -> strcmp b c = Lt -> strcmp a c = Lt.
Proof.
  unfold strcmp. revert b c.
  induction a as [|x a IH]; intros [|y b] [|z c]; simpl; try discriminate;
    try reflexivity.
  destruct (Ascii.compare x y) eqn:Exy; try discriminate;
    destruct (Ascii.compare y z) eqn:Eyz; try discriminate; intros H1 H2.
  - apply ascii_compare_eq in Exy, Eyz. subst.
    assert (E : Ascii.compare z z = Eq)
      by (unfold Ascii.compare; apply N.compare_refl).
    rewrite E. now apply IH with b.
  - apply ascii_compare_eq in Exy. subst. now rewrite Eyz.
  - apply ascii_compare_eq in Eyz. subst. now rewrite Exy.
  - now rewrite (ascii_compare_lt_trans _ _ _ Exy Eyz).
Qed.

Lemma media_type_cmp_antisym (x y : media_type) :
  media_type_cmp y x = CompOpp (media_type_cmp x y).
Proof.
  unfold media_type_cmp, dgt, dlt, strcmp.
  destruct (SFltb (quality x) (quality y)) eqn:Hxy;
    destruct (SFltb (quality y) (quality x)) eqn:Hyx; try reflexivity.
  - exfalso. fold (dlt (quality x) (quality y)) in Hxy.
    fold (dlt (quality y) (quality x)) in Hyx.
    pose proof (dlt_trans _ _ _ Hxy Hyx) as H.
    now rewrite dlt_irrefl in H.
  - apply String.compare_antisym.
Qed.

Lemma double_tie_lt (a b c : double) :
  is_nan a = false -> is_nan b = false ->
  dlt a b = false -> dlt b a = false -> dlt b c = true -> dlt a c = true.
Proof. intros. order_keys. Qed.

Lemma double_lt_tie (a b c : double) :
  is_nan b = false -> is_nan c = false ->
  dlt a b = true -> dlt b c = false -> dlt c b = false -> dlt a c = true.
Proof. intros. order_keys. Qed.

Lemma double_tie_tie (a b c : double) :
  is_nan a = false -> is_nan b = false -> is_nan c = false ->
  dlt a b = false -> dlt b a = false -> dlt b c = false -> dlt c b = false ->
  dlt a c = false /\ dlt c a = false.
Proof. intros. split; order_keys. Qed.

Lemma before_trans (x y z : media_type) :
  is_nan (quality x) = false -> is_nan (quality y) = false ->
  is_nan (quality z) = false ->
  before x y -> before y z -> before x z.
Proof.
  unfold before, media_type_cmp, dgt. intros Hx Hy Hz.
  destruct (dlt (quality y) (quality x)) eqn:Hyx.
  - intros _.
    destruct (dlt (quality z) (quality y)) eqn:Hzy.
    + intros _. now rewrite (dlt_trans _ _ _ Hzy Hyx).
    + destruct (dlt (quality y) (quality z)) eqn:Hyz; [discriminate|].
      intros _. now rewrite (double_tie_lt _ _ _ Hz Hy Hzy Hyz Hyx).
  - destruct (dlt (quality x) (quality y)) eqn:Hxy; [discriminate|].
    intros Hs.
    destruct (dlt (quality z) (quality y)) eqn:Hzy.
    + intros _. now rewrite (double_lt_tie _ _ _ Hy Hx Hzy Hyx Hxy).
    + destruct (dlt (quality y) (quality z)) eqn:Hyz; [discriminate|].
      intros Hs'.
      destruct (double_tie_tie _ _ _ Hx Hy Hz Hxy Hyx Hyz Hzy) as [-> ->].
      now apply strcmp_lt_trans with (type y).
Qed.

Lemma double_tie_same (a b c : double) :
  is_nan a = false -> is_nan b = false -> is_nan c = false ->
  dlt a b = false -> dlt b a = false ->
  dlt a c = dlt b c /\ dlt c a = dlt c b.
Proof.
  intros Ha Hb Hc Hab Hba.
  split.
  - destruct (dlt b c) eqn:E.
    + now apply double_tie_lt with b.
    + destruct (dlt a c) eqn:E'; [|reflexivity].
      rewrite <- E. symmetry. now apply double_tie_lt with a.
  - destruct (dlt c b) eqn:E.
    + now apply double_lt_tie with b.
    + destruct (dlt c a) eqn:E'; [|reflexivity].
      rewrite <- E. symmetry. now apply double_lt_tie with a.
Qed.

Lemma media_type_cmp_eq (x y : media_type) :
  media_type_cmp x y = Eq ->
  dlt (quality x) (quality y) = false /\ dlt (quality y) (quality x) = false
  /\ type x = type y.
Proof.
  unfold media_type_cmp, dgt, strcmp.
  destruct (dlt (quality y) (quality x)); [discriminate|].
  destruct (dlt (quality x) (quality y)); [discriminate|].
  intros H. apply String.compare_eq_iff in H. auto.
Qed.

Lemma media_type_cmp_eq_left (x y z : media_type) :
  is_nan (quality x) = false -> is_nan (quality y) = false ->
  is_nan (quality z) = false ->
  media_type_cmp x y = Eq -> media_type_cmp x z = media_type_cmp y z.
Proof.
  intros Hx Hy Hz H. apply media_type_cmp_eq in H as (Hxy & Hyx & Ht).
  destruct (double_tie_same _ _ (quality z) Hx Hy Hz Hxy Hyx) as [E1 E2].
  unfold media_type_cmp, dgt. now rewrite E1, E2, Ht.
Qed.

Lemma media_type_cmp_eq_right (x y z : media_type) :
  is_nan (quality x) = false -> is_nan (quality y) = false ->
  is_nan (quality z) = false ->
  media_type_cmp y z = Eq -> media_type_cmp x z = media_type_cmp x y.
Proof.
  intros Hx Hy Hz H. apply media_type_cmp_eq in H as (Hyz & Hzy & Ht).
  destruct (double_tie_same _ _ (quality x) Hy Hz Hx Hyz Hzy) as [E1 E2].
  unfold media_type_cmp, dgt. now rewrite E1, E2, Ht.
Qed.

Lemma not_after_trans (x y z : media_type) :
  is_nan (quality x) = false -> is_nan (quality y) = false ->
  is_nan (quality z) = false ->
  media_type_cmp x y <> Gt -> media_type_cmp y z <> Gt ->
  media_type_cmp x z <> Gt.
Proof.
  intros Hx Hy Hz Hxy Hyz.
  destruct (media_type_cmp x y) eqn:Exy; [| |congruence].
  - now rewrite (media_type_cmp_eq_left _ _ _ Hx Hy Hz Exy).
  - destruct (media_type_cmp y z) eqn:Eyz; [| |congruence].
    + rewrite (media_type_cmp_eq_right _ _ _ Hx Hy Hz Eyz), Exy. discriminate.
    + rewrite (before_trans _ _ _ Hx Hy Hz Exy Eyz). discriminate.
Qed.

(** In a ranked list without NaN the head comes after no other entry. *)
Lemma ranked_head (l : list media_type) :
  forall x,
    (forall e, In e (x :: l) -> is_nan (quality e) = false) ->
    ranked (x :: l) = true ->
    forall y, In y l -> media_type_cmp x y <> Gt.
Proof.
  induction l as [|z l IH]; intros x Hn Hr y Hy; [destruct Hy|].
  cbn [ranked] in Hr.
  assert (Hxz : media_type_cmp x z <> Gt)
    by (intros E; rewrite E in Hr; discriminate).
  assert (Hr' : ranked (z :: l) = true)
    by (revert Hr; destruct (media_type_cmp x z); auto; discriminate).
  destruct Hy as [<-|Hy]; [exact Hxz|].
  apply not_after_trans with z; auto using in_eq, in_cons.
Qed.

Lemma ranked_tail (x : media_type) (l : list media_type) :
  ranked (x :: l) = true -> ranked l = true.
Proof.
  destruct l as [|y l]; [reflexivity|]. cbn [ranked].
  now destruct (media_type_cmp x y).
Qed.

(** Two ranked arrangements of the same entries are the same list. *)
Lemma ranked_unique (l1 : list media_type) :
  forall l2,
    Permutation l1 l2 ->
    (forall e, In e l1 -> is_nan (quality e) = false) ->
    (forall x y, In x l1 -> In y l1 -> media_type_cmp x y = Eq -> x = y) ->
    ranked l1 = true -> ranked l2 = true -> l1 = l2.
Proof.
  induction l1 as [|x l1 IH]; intros l2 Hp Hn He Hr1 Hr2.
  - apply Permutation_nil in Hp. now subst.
  - destruct l2 as [|y l2].
    { apply Permutation_sym, Permutation_nil in Hp. discriminate. }
    assert (Hn2 : forall e, In e (y :: l2) -> is_nan (quality e) = false).
    { intros e H. apply Hn. apply Permutation_in with (y :: l2); auto.
      now apply Permutation_sym. }
    assert (Hy : In y (x :: l1)).
    { apply Permutation_in with (y :: l2); [now apply Permutation_sym|].
      now left. }
    assert (Hx : In x (y :: l2)).
    { apply Permutation_in with (x :: l1); [assumption | now left]. }
    assert (Hxy : media_type_cmp x y <> Gt).
    { destruct Hy as [<-|Hy]; [|now apply (ranked_head l1 x Hn Hr1)].
      rewrite (media_type_cmp_antisym x x).
      destruct (media_type_cmp x x) eqn:E; simpl; try discriminate.
      intros _. pose proof (media_type_cmp_antisym x x) as A.
      rewrite E in A. discriminate. }
    assert (Hyx : media_type_cmp y x <> Gt).
    { destruct Hx as [->|Hx]; [exact Hxy|].
      now apply (ranked_head l2 y Hn2 Hr2). }
    assert (E : x = y).
    { apply He; [now left | assumption |].
      rewrite (media_type_cmp_antisym x y) in Hyx.
      destruct (media_type_cmp x y); simpl in *; congruence. }
    subst y. f_equal.
    apply IH.
    + now apply Permutation_cons_inv with x.
    + intros e H. apply Hn. now right.
    + intros a b Ha Hb. apply He; now right.
    + now apply ranked_tail with x.
    + now apply ranked_tail with x.
Qed.

Lemma qsort_insert_permutation (x : media_type) (l : list media_type) :
  Permutation (qsort_insert x l) (x :: l).
Proof.
  induction l as [|y l IH]; cbn [qsort_insert]; [apply Permutation_refl|].
  destruct (media_type_cmp x y); try apply Permutation_refl.
  apply Permutation_trans with (y :: x :: l).
  - now apply perm_skip.
  - apply perm_swap.
Qed.

Lemma qsort_permutation (l : list media_type) : Permutation (qsort l) l.
Proof.
  induction l as [|x l IH]; cbn [qsort]; [apply Permutation_refl|].
  apply Permutation_trans with (x :: qsort l).
  - apply qsort_insert_permutation.
  - now apply perm_skip.
Qed.

(** Whatever procedure sorts the array: if its result is a ranked
    arrangement of the entries, it is the list [qsort] stands for, provided
    no quality is NaN and entries that compare equal are equal. *)
Lemma qsort_any_procedure (l sorted : list media_type) :
  (forall e, In e l -> is_nan (quality e) = false) ->
  (forall x y, In x l -> In y l -> media_type_cmp x y = Eq -> x = y) ->
  Permutation sorted l -> ranked sorted = true ->
  sorted = qsort l.
Proof.
  intros Hn He Hp Hr.
  apply ranked_unique; auto using qsort_ranked.
  - apply Permutation_trans with l; [assumption|].
    apply Permutation_sym, qsort_permutation.
  - intros e H. apply Hn. now apply Permutation_in with sorted.
  - intros x y Hx Hy. apply He; now apply Permutation_in with sorted.
Qed.


(* ================================================================== *)
(** * The matcher *)
(* ================================================================== *)

(** [strchr] splits its argument at the first occurrence. *)
Lemma strchr_split (s : string) (c : ascii) (n : nat) (r : string) :
  strchr s c = Some (n, r) ->
  exists a b, s = a ++ String c b /\ strchr a c = None /\
              n = String.length a /\ r = String c b.
Proof.
  revert n r. induction s as [|x s IH]; simpl; intros n r; [discriminate|].
  destruct (Ascii.eqb_spec x c) as [->|Hx].
  - intros E. injection E as <- <-. exists "", s. auto.
  - destruct (strchr s c) as [[n' r']|]; [|discriminate].
    intros E. injection E as <- <-.
    destruct (IH n' r' eq_refl) as (a & b & -> & Ha & -> & ->).
    exists (String x a), b. simpl.
    destruct (Ascii.eqb_spec x c); [contradiction|].
    rewrite Ha. auto.
Qed.

Lemma strneq_refl (s : string) (n : nat) : strneq s s n = true.
Proof.
  revert s. induction n as [|n IH]; intros [|c s]; simpl; try reflexivity.
  now rewrite Ascii.eqb_refl, IH.
Qed.

Lemma strneq_common_prefix (a x y : string) :
  strneq (a ++ x) (a ++ y) (String.length a) = true.
Proof.
  induction a as [|c a IH]; simpl; [now destruct x|].
  now rewrite Ascii.eqb_refl, IH.
Qed.

(** Two prefixes of one length that [strncmp] finds equal are equal. *)
Lemma strneq_prefix_eq (a b x y : string) :
  String.length a = String.length b ->
  strneq (a ++ x) (b ++ y) (String.length a) = true -> a = b.
Proof.
  revert b. induction a as [|c a IH]; intros [|d b]; simpl; try discriminate;
    [reflexivity|].
  intros Hl H. injection Hl as Hl.
  apply andb_prop in H as [Hc H]. apply Ascii.eqb_eq in Hc. subst d.
  now rewrite (IH b Hl H).
Qed.

Lemma media_type_match_refl (ty : string) : media_type_match ty ty = true.
Proof.
  unfold media_type_match.
  destruct (streq ty "*/*"); [reflexivity|].
  destruct (strchr ty "/") as [[n r]|]; [|apply streq_refl].
  destruct r as [|c after]; [apply streq_refl|].
  destruct (streq after "*"); [|apply streq_refl].
  now rewrite Nat.eqb_refl, strneq_refl.
Qed.

Lemma media_type_match_main_wildcard (main sub : string) :
  strchr main "/" = None ->
  media_type_match (main ++ "/*") (main ++ "/" ++ sub) = true.
Proof.
  intros Hm. unfold media_type_match.
  destruct (streq (main ++ "/*") "*/*"); [reflexivity|].
  change (main ++ "/*") with (main ++ String "/" "*").
  change (main ++ "/" ++ sub) with (main ++ String "/" sub).
  rewrite !(strchr_app _ _ _ Hm).
  change (streq "*" "*") with true. cbv iota.
  now rewrite Nat.eqb_refl, strneq_common_prefix.
Qed.

(** X1.  The matcher accepts exactly in three cases: the pattern is [*/*];
    the pattern is the type itself; or the pattern is [main/*] and the type
    is [main/sub] with the same text before the first slash. *)
Theorem media_type_match_cases (pattern ty : string) :
  media_type_match pattern ty = true <->
  pattern = "*/*" \/ pattern = ty \/
  exists main sub, strchr main "/" = None /\
                   pattern = main ++ "/*" /\ ty = main ++ "/" ++ sub.
Proof.
  split.
  - unfold media_type_match.
    destruct (String.eqb_spec pattern "*/*") as [->|Hw]; [now left|].
    change (streq pattern "*/*") with (String.eqb pattern "*/*").
    destruct (String.eqb_spec pattern "*/*") as [|_]; [contradiction|].
    destruct (strchr pattern "/") as [[pl ps]|] eqn:Ep;
      [|intros H; apply streq_true in H; auto].
    destruct (strchr ty "/") as [[tl ts]|] eqn:Et;
      [|intros H; apply streq_true in H; auto].
    apply strchr_split in Ep as (a & b & -> & Ha & -> & ->).
    apply strchr_split in Et as (a' & b' & -> & Ha' & -> & _).
    destruct (String.eqb_spec b "*") as [->|Hb].
    + change (streq "*" "*") with true. cbv iota.
      intros H. apply andb_prop in H as [Hl H].
      apply Nat.eqb_eq in Hl.
      apply (strneq_prefix_eq _ _ _ _ Hl) in H. subst a'.
      right. right. exists a, b'. auto.
    + change (streq b "*") with (String.eqb b "*").
      destruct (String.eqb_spec b "*"); [contradiction|].
      intros H. apply streq_true in H. auto.
  - intros [->|[->|(main & sub & Hm & -> & ->)]].
    + reflexivity.
    + apply media_type_match_refl.
    + now apply media_type_match_main_wildcard.
Qed.

(* ================================================================== *)
(** * quality and accepts against the matcher *)
(* ================================================================== *)

(** A filled prefix buffer holds [main/*] for the type [main/sub]. *)
Lemma type_prefix_of_filled (ty : string) :
  type_prefix_of ty <> "" ->
  exists main sub, strchr main "/" = None /\
                   ty = main ++ "/" ++ sub /\
                   type_prefix_of ty = main ++ "/*".
Proof.
  unfold type_prefix_of.
  destruct (strchr ty "/") as [[len r]|] eqn:E; [|intros H; now destruct H].
  apply strchr_split in E as (a & b & -> & Ha & -> & _).
  destruct (String.length a <? 256 - 2)%nat; [|intros H; now destruct H].
  intros _. exists a, b. rewrite strndup_app. auto.
Qed.

(** Where the result of the scan comes from, with the type of the entry
    that gave it. *)
Lemma quality_scan_origin (types : acceptnorm_state) (ty pre : string)
    (wq twq : double) :
  let r := quality_scan types ty pre wq twq in
  r = d_zero \/ (r = wq /\ dge wq d_zero = true)
  \/ (r = twq /\ dge twq d_zero = true)
  \/ exists e, In e types /\ r = quality e /\
               (type e = ty \/ type e = "*/*" \/
                (pre <> "" /\ type e = pre)).
Proof.
  revert wq twq. induction types as [|e types IH]; intros wq twq; simpl.
  - destruct (dge twq d_zero) eqn:Ht; [auto|].
    destruct (dge wq d_zero) eqn:Hw; auto.
  - unfold streq.
    assert (Hlift : forall r,
              (exists x, In x types /\ r = quality x /\
                 (type x = ty \/ type x = "*/*" \/
                  (pre <> "" /\ type x = pre))) ->
              exists x, (e = x \/ In x types) /\ r = quality x /\
                 (type x = ty \/ type x = "*/*" \/
                  (pre <> "" /\ type x = pre))).
    { intros r (x & Hx & H). exists x. auto. }
    destruct (String.eqb_spec (type e) ty) as [He|He].
    { right. right. right. exists e. auto. }
    destruct (String.eqb_spec (type e) "*/*") as [Hw|Hw].
    { destruct (IH (quality e) twq) as [H|[[H1 H2]|[H|H]]]; auto.
      right. right. right. exists e. auto. }
    destruct (String.eqb_spec pre "") as [Hp|Hp]; cbn [negb andb].
    { destruct (IH wq twq) as [H|[H|[H|H]]]; auto. }
    destruct (String.eqb_spec (type e) pre) as [Ht|Ht].
    + destruct (IH wq (quality e)) as [H|[H|[[H1 H2]|H]]]; auto.
      right. right. right. exists e. auto 6.
    + destruct (IH wq twq) as [H|[H|[H|H]]]; auto.
Qed.

(** X2.  When accepts answers yes for a header and a media type, some
    entry of the parsed header has a quality above 0 and a type that the
    matcher accepts for the lower-cased media type: accepts never says yes
    without a header entry that prefer, filter and best_match would count
    too. *)
Theorem accepts_has_matching_entry (h : option string) (mt : string) :
  vmod_accepts h (Some mt) = true ->
  acceptable (parse_accept_header h) (lowercase mt).
Proof.
  unfold vmod_accepts, vmod_quality.
  destruct (absent h); [discriminate|].
  destruct mt as [|c mt]; [discriminate|].
  unfold get_quality_for_type.
  set (ty := lowercase (String c mt)).
  destruct (quality_scan_origin (parse_accept_header h) ty
              (type_prefix_of ty) d_minus_one d_minus_one)
    as [->|[[_ H]|[[_ H]|(e & He & -> & Hty)]]]; try discriminate.
  intros Hq. exists e. split; [exact He|]. split; [|exact Hq].
  destruct Hty as [->|[->|[Hpre ->]]].
  - apply media_type_match_refl.
  - reflexivity.
  - destruct (type_prefix_of_filled ty Hpre) as (main & sub & Hm & E & ->).
    rewrite E. now apply media_type_match_main_wildcard.
Qed.

Lemma accepts_has_matching_entry_witness :
  acceptable (parse_accept_header (Some "text/*;q=0.5, image/png;q=0"))
             (lowercase "Text/HTML").
Proof.
  refine (accepts_has_matching_entry
            (Some "text/*;q=0.5, image/png;q=0") "Text/HTML" _).
  vm_compute. reflexivity.
Defined.

(* ================================================================== *)
(** * The quality of a preferred type *)
(* ================================================================== *)

Lemma score_positive_acceptable (state : acceptnorm_state) (pref : string) :
  dgt (score state pref) d_zero = true -> acceptable state pref.
Proof.
  intros Hpos. unfold score in *.
  destruct (match_quality_attained state pref d_zero)
    as [E|(e & He & Hm & Hq)].
  - rewrite E in Hpos. discriminate.
  - exists e. split; [exact He|]. split; [exact Hm|]. now rewrite Hq.
Qed.

Lemma acceptable_score_positive (state : acceptnorm_state) (pref : string) :
  acceptable state pref -> dgt (score state pref) d_zero = true.
Proof.
  intros (e & He & Hm & Hq).
  pose proof (match_quality_upper state pref d_zero e eq_refl He Hm) as Hup.
  fold (score state pref) in Hup.
  unfold dgt in *.
  apply dlt_dge_trans with (quality e); [exact Hq|].
  apply not_dlt_dge; auto using score_not_nan.
  now apply dlt_not_nan_r in Hq.
Qed.

Lemma accepted_by_score (state : acceptnorm_state) (pref : string) :
  dgt (score state pref) d_zero = accepted_by state pref.
Proof.
  destruct (accepted_by state pref) eqn:E.
  - now apply acceptable_score_positive, accepted_by_acceptable.
  - destruct (dgt (score state pref) d_zero) eqn:E'; [|reflexivity].
    apply score_positive_acceptable, accepted_by_acceptable in E'.
    congruence.
Qed.

(** X3.  The three negotiating operations agree on which preferred types
    the client accepts: the quality that filter and best_match compute for
    a preferred type (the largest quality of a matching header entry, from
    0.0) is above 0 exactly when the inner loop of prefer finds an entry,
    and exactly when some header entry matches the type with a quality
    above 0. *)
Theorem score_positive_iff_acceptable (state : acceptnorm_state)
    (pref : string) :
  (dgt (match_quality state pref d_zero) d_zero = true
   <-> acceptable state pref)
  /\ (accepted_by state pref = true <-> acceptable state pref).
Proof.
  fold (score state pref). split; split.
  - apply score_positive_acceptable.
  - apply acceptable_score_positive.
  - intros H. rewrite <- accepted_by_score in H.
    now apply score_positive_acceptable.
  - intros H. rewrite <- accepted_by_score.
    now apply acceptable_score_positive.
Qed.

(* ================================================================== *)
(** * The preferred list: what it holds *)
(* ================================================================== *)

Lemma comma_tolower (c : ascii) : is_comma (tolower c) = is_comma c.
Proof. destruct c as [[] [] [] [] [] [] [] []]; reflexivity. Qed.

Lemma free_of_comma_lowercase (s : string) :
  free_of is_comma s = true -> free_of is_comma (lowercase s) = true.
Proof.
  induction s as [|c s IH]; simpl; intros H; [reflexivity|].
  apply andb_prop in H as [H1 H2].
  now rewrite comma_tolower, H1, IH.
Qed.

Lemma preferred_loop_length (fuel room : nat) (p : string) :
  List.length (preferred_loop fuel room p) <= room.
Proof.
  revert room p. induction fuel as [|fuel IH]; intros room p; [simpl; lia|].
  destruct room as [|room]; [simpl; lia|].
  cbn [preferred_loop].
  destruct p as [|c p]; [simpl; lia|].
  destruct (skip_ws (String c p)) as [|d p0]; [simpl; lia|].
  destruct (scan_until is_comma (String d p0)) as [tok p1].
  destruct (trim_end tok).
  - specialize (IH (S room)
      match p1 with
      | String c0 r => if Ascii.eqb c0 "," then r else p1
      | EmptyString => p1
      end). lia.
  - simpl. specialize (IH room
      match p1 with
      | String c0 r => if Ascii.eqb c0 "," then r else p1
      | EmptyString => p1
      end). lia.
Qed.

Lemma preferred_loop_wf (fuel room : nat) (p : string) :
  Forall (fun t => wf_pref t = true) (preferred_loop fuel room p).
Proof.
  revert room p. induction fuel as [|fuel IH]; intros room p;
    [constructor|].
  destruct room as [|room]; [constructor|].
  cbn [preferred_loop].
  destruct p as [|c p]; [constructor|].
  destruct (skip_ws (String c p)) as [|d p0] eqn:Ep; [constructor|].
  apply skip_ws_solid in Ep.
  destruct (scan_until is_comma (String d p0)) as [tok p1] eqn:Es.
  pose proof (scan_until_free _ _ _ _ Es) as Hfree.
  pose proof (scan_until_solid _ _ _ _ _ Ep Es) as Hsolid.
  destruct (trim_end tok) as [|t0 t] eqn:Et; [apply IH|].
  constructor; [|apply IH].
  destruct Hsolid as [->|Hsolid]; [discriminate|].
  rewrite <- Et. unfold wf_pref.
  rewrite lowercase_solid
    by (apply trim_end_solid; [assumption | rewrite Et; discriminate]).
  rewrite free_of_comma_lowercase by now apply free_of_trim_end.
  rewrite trim_end_lowercase, trim_end_trim_end, lowercase_lowercase.
  now rewrite !String.eqb_refl.
Qed.

(** X4.  The preferred list holds at most 64 types, and each of them is
    not empty, holds no comma, has no white space at either end and is in
    lower case. *)
Theorem parse_preferred_types_invariant (preferred : option string) :
  List.length (parse_preferred_types preferred) <= MAX_MEDIA_TYPES /\
  Forall (fun t => wf_pref t = true) (parse_preferred_types preferred).
Proof.
  destruct preferred as [p|]; [|split; [simpl; lia | constructor]].
  unfold parse_preferred_types.
  split; [apply preferred_loop_length | apply preferred_loop_wf].
Qed.

(** A text of white space and commas only holds no preferred type. *)
Lemma preferred_loop_blank (p : string) :
  all_of is_space_or_comma p = true ->
  forall fuel room, preferred_loop fuel room p = [].
Proof.
  induction p as [|c p IH]; intros Hp fuel room.
  - destruct fuel, room; reflexivity.
  - simpl in Hp. apply andb_prop in Hp as [Hc Hp].
    destruct fuel as [|fuel]; [reflexivity|].
    unfold is_space_or_comma in Hc. apply orb_prop in Hc as [Hc|Hc].
    + rewrite (preferred_loop_space _ _ _ _ Hc). now apply IH.
    + unfold is_comma in Hc. apply Ascii.eqb_eq in Hc. subst c.
      rewrite preferred_loop_comma. now apply IH.
Qed.

(** X5.  A non-empty preferred argument made of white space and commas
    only names no type.  Unlike the empty argument, which makes filter act
    as canonicalize, it makes filter return the empty string; best_match
    returns the empty string and prefer returns the header as it is. *)
Theorem blank_preferred_names_no_type (h : option string) (p : string) :
  p <> "" -> all_of is_space_or_comma p = true ->
  parse_preferred_types (Some p) = [] /\
  vmod_filter h (Some p) = "" /\
  vmod_best_match h (Some p) = "" /\
  vmod_prefer h (Some p) = match h with Some x => x | None => "" end.
Proof.
  intros Hne Hp.
  assert (E : parse_preferred_types (Some p) = [])
    by (apply (preferred_loop_blank p Hp)).
  split; [exact E|].
  unfold vmod_filter, vmod_best_match, vmod_prefer. rewrite E.
  assert (Ha : absent (Some p) = false) by (destruct p; [contradiction|reflexivity]).
  rewrite Ha.
  repeat split.
  - destruct (absent h); reflexivity.
  - destruct h as [[|c x]|]; reflexivity.
Qed.

Lemma blank_preferred_names_no_type_witness :
  parse_preferred_types (Some " , ,, ") = [] /\
  vmod_filter (Some "text/html") (Some " , ,, ") = "" /\
  vmod_best_match (Some "text/html") (Some " , ,, ") = "" /\
  vmod_prefer (Some "text/html") (Some " , ,, ") = "text/html".
Proof.
  refine (blank_preferred_names_no_type (Some "text/html") " , ,, " _ _).
  - discriminate.
  - reflexivity.
Defined.

(* ================================================================== *)
(** * filter *)
(* ================================================================== *)

(** With room for every preferred type the loop keeps the accepted ones,
    in order, each with its computed quality. *)
Lemma filter_loop_kept (state : acceptnorm_state) (prefs : list string) :
  forall room, List.length prefs <= room ->
  filter_loop state prefs room = kept_types state prefs.
Proof.
  unfold kept_types.
  induction prefs as [|t prefs IH]; intros room Hlen; [now destruct room|].
  destruct room as [|room]; [simpl in Hlen; lia|].
  cbn [filter_loop List.filter map]. fold (score state t).
  rewrite <- accepted_by_score. simpl in Hlen.
  destruct (dgt (score state t) d_zero).
  - cbn [map]. f_equal. apply IH. lia.
  - apply IH. lia.
Qed.

Lemma build_single_full (t : string) :
  build_accept_string (sort_media_types [mk_media_type t d_one]) = t.
Proof.
  cbn [sort_media_types build_accept_string build_rest].
  unfold entry_text. cbn [type quality].
  change (dlt d_one d_one) with false. cbv iota.
  now rewrite !append_empty_r.
Qed.

(** X6.  With header and preferred argument both present, filter writes
    the preferred types that pass the test of prefer (some header entry
    matches with a quality above 0), each with the largest quality of a
    matching entry, ranked like canonicalize does; when no preferred type
    passes, it returns the first preferred type, without [;q=]. *)
Theorem filter_keeps_accepted_types (h p : string) :
  h <> "" -> p <> "" ->
  vmod_filter (Some h) (Some p) =
  match kept_types (parse_accept_header (Some h))
                   (parse_preferred_types (Some p)) with
  | [] => match parse_preferred_types (Some p) with
          | first :: _ => first
          | [] => ""
          end
  | kept => build_accept_string (sort_media_types kept)
  end.
Proof.
  intros Hh Hp. unfold vmod_filter.
  assert (Ha : absent (Some h) = false) by (destruct h; [contradiction|reflexivity]).
  assert (Hb : absent (Some p) = false) by (destruct p; [contradiction|reflexivity]).
  rewrite Ha, Hb.
  rewrite filter_loop_kept by apply preferred_loop_length.
  destruct (kept_types _ _) as [|e kept]; [|reflexivity].
  destruct (parse_preferred_types (Some p)) as [|first rest];
    [reflexivity | apply build_single_full].
Qed.

Lemma filter_keeps_accepted_types_witness :
  vmod_filter (Some "text/*;q=0.5, image/png;q=0.8, audio/ogg;q=0")
              (Some "text/html, audio/ogg, Image/PNG")
  = "image/png;q=0.8, text/html;q=0.5".
Proof.
  refine (eq_trans
            (filter_keeps_accepted_types
               "text/*;q=0.5, image/png;q=0.8, audio/ogg;q=0"
               "text/html, audio/ogg, Image/PNG" _ _) _).
  - discriminate.
  - discriminate.
  - vm_compute. reflexivity.
Defined.

Lemma wf_pref_nonempty (t : string) : wf_pref t = true -> t <> "".
Proof. destruct t; [discriminate | discriminate]. Qed.

Lemma build_accept_string_nonempty (e : media_type) (l : list media_type) :
  type e <> "" -> build_accept_string (e :: l) <> "".
Proof.
  intros He. cbn [build_accept_string]. unfold entry_text.
  destruct (type e); [contradiction | discriminate].
Qed.

Lemma kept_types_are_preferred (state : acceptnorm_state)
    (prefs : list string) (e : media_type) :
  In e (kept_types state prefs) -> In (type e) prefs.
Proof.
  unfold kept_types. rewrite in_map_iff.
  intros (t & <- & Ht). apply filter_In in Ht as [Ht _]. exact Ht.
Qed.

(** X7.  As soon as the preferred argument names a type, filter returns a
    non-empty string, whatever the header: a client that accepts nothing
    of the list is still served the first preferred type. *)
Theorem filter_result_not_empty (h : option string) (p : string) :
  parse_preferred_types (Some p) <> [] ->
  vmod_filter h (Some p) <> "".
Proof.
  intros Hne.
  pose proof (preferred_loop_wf (S (String.length p)) MAX_MEDIA_TYPES p)
    as Hwf.
  fold (parse_preferred_types (Some p)) in Hwf.
  rewrite Forall_forall in Hwf.
  assert (Hb : absent (Some p) = false).
  { destruct p; [|reflexivity]. exfalso. now apply Hne. }
  unfold vmod_filter. rewrite Hb.
  destruct (absent h) eqn:Hh.
  - destruct (parse_preferred_types (Some p)) as [|first rest];
      [contradiction|].
    apply wf_pref_nonempty, Hwf. now left.
  - rewrite filter_loop_kept by apply preferred_loop_length.
    destruct (kept_types _ _) as [|e kept] eqn:Ek.
    + destruct (parse_preferred_types (Some p)) as [|first rest];
        [contradiction|].
      rewrite build_single_full.
      apply wf_pref_nonempty, Hwf. now left.
    + rewrite sort_media_types_qsort.
      destruct (qsort (e :: kept)) as [|x l] eqn:Eq.
      { pose proof (qsort_length (e :: kept)) as Hl.
        rewrite Eq in Hl. discriminate. }
      apply build_accept_string_nonempty.
      apply wf_pref_nonempty, Hwf.
      apply (kept_types_are_preferred (parse_accept_header h)).
      rewrite Ek. apply qsort_in. rewrite Eq. now left.
Qed.

Lemma filter_result_not_empty_witness :
  vmod_filter (Some "image/png") (Some "text/html,application/xml") <> "".
Proof.
  refine (filter_result_not_empty (Some "image/png")
            "text/html,application/xml" _).
  vm_compute. discriminate.
Defined.

(* ================================================================== *)
(** * best_match against prefer *)
(* ================================================================== *)

Lemma best_match_is_maximum (h p : string) :
  h <> "" -> parse_preferred_types (Some p) <> [] ->
  In (vmod_best_match (Some h) (Some p)) (parse_preferred_types (Some p)) /\
  forall x, In x (parse_preferred_types (Some p)) ->
    dgt (score (parse_accept_header (Some h)) x)
        (score (parse_accept_header (Some h))
               (vmod_best_match (Some h) (Some p))) = false.
Proof.
  intros Hh Hp.
  destruct (parse_preferred_types (Some p)) as [|first rest] eqn:E;
    [contradiction|].
  pose proof (vmod_best_match_loop h p first rest Hh E) as Hloop.
  destruct (best_loop_spec (parse_accept_header (Some h)) rest first
              (score (parse_accept_header (Some h)) first)
              (score_not_nan _ _))
    as (r & Hr & [[-> Hall]|(before & after & -> & Hlt & Hb & Ha)]);
    rewrite Hr in Hloop; injection Hloop as <-.
  - split; [now left|]. intros x [<-|Hx]; [apply dlt_irrefl | now apply Hall].
  - split; [right; apply in_or_app; right; now left|].
    intros x [<-|Hx].
    + unfold dgt. apply dge_not_dlt. now apply dlt_dge.
    + apply in_app_or in Hx as [Hx|[<-|Hx]].
      * unfold dgt. apply dge_not_dlt, dlt_dge. now apply Hb.
      * apply dlt_irrefl.
      * now apply Ha.
Qed.

(** X8.  For a non-empty header and a non-empty preferred list:
    best_match returns one of the preferred types; if some preferred type
    passes the test of prefer, so does the one best_match returns; if none
    does, best_match returns the first preferred type while prefer returns
    the header. *)
Theorem best_match_agrees_with_prefer (h p : string) :
  h <> "" -> parse_preferred_types (Some p) <> [] ->
  In (vmod_best_match (Some h) (Some p)) (parse_preferred_types (Some p))
  /\ ((exists x, In x (parse_preferred_types (Some p)) /\
                 acceptable (parse_accept_header (Some h)) x) ->
      acceptable (parse_accept_header (Some h))
                 (vmod_best_match (Some h) (Some p)))
  /\ ((forall x, In x (parse_preferred_types (Some p)) ->
                 ~ acceptable (parse_accept_header (Some h)) x) ->
      hd_error (parse_preferred_types (Some p))
      = Some (vmod_best_match (Some h) (Some p))
      /\ vmod_prefer (Some h) (Some p) = h).
Proof.
  intros Hh Hp.
  destruct (best_match_is_maximum h p Hh Hp) as [Hin Hmax].
  split; [exact Hin|]. split.
  - intros (x & Hx & Hacc).
    apply acceptable_score_positive in Hacc.
    apply score_positive_acceptable.
    specialize (Hmax x Hx). unfold dgt in *.
    apply dlt_dge_trans with (score (parse_accept_header (Some h)) x);
      [exact Hacc|].
    apply not_dlt_dge; auto using score_not_nan.
  - intros Hnone. split.
    + destruct (parse_preferred_types (Some p)) as [|first rest] eqn:E;
        [contradiction|].
      cbn [hd_error]. f_equal. symmetry.
      pose proof (vmod_best_match_loop h p first rest Hh E) as Hloop.
      destruct (best_loop_spec (parse_accept_header (Some h)) rest first
                  (score (parse_accept_header (Some h)) first)
                  (score_not_nan _ _))
        as (r & Hr & [[-> Hall]|(before & after & -> & Hlt & Hb & Ha)]);
        rewrite Hr in Hloop; injection Hloop as Hbest; [now symmetry|].
      exfalso.
      apply (Hnone r); [right; apply in_or_app; right; now left|].
      apply score_positive_acceptable. unfold dgt.
      apply dge_dlt_trans
        with (score (parse_accept_header (Some h)) first); [|exact Hlt].
      apply score_nonneg.
    + rewrite (vmod_prefer_loop _ _ Hh Hp).
      now rewrite (prefer_loop_none _ _ Hnone).
Qed.

Lemma best_match_agrees_with_prefer_witness :
  acceptable (parse_accept_header (Some "text/*;q=0.2, image/png"))
    (vmod_best_match (Some "text/*;q=0.2, image/png")
                     (Some "audio/ogg, text/html, image/png")).
Proof.
  refine (proj1 (proj2 (best_match_agrees_with_prefer
                          "text/*;q=0.2, image/png"
                          "audio/ogg, text/html, image/png" _ _)) _).
  - discriminate.
  - vm_compute. discriminate.
  - exists "text/html". split.
    + vm_compute. auto.
    + exists (mk_media_type "text/*" (fst (strtod "0.2"))). split.
      * vm_compute. auto.
      * split; vm_compute; reflexivity.
Defined.

(* ================================================================== *)
(** * The ranking sort_media_types leaves *)
(* ================================================================== *)

Lemma ranked_suffix (l1 l2 : list media_type) :
  ranked (l1 ++ l2) = true -> ranked l2 = true.
Proof.
  induction l1 as [|x l1 IH]; [auto|].
  intros H. apply IH. now apply ranked_tail with x.
Qed.

(** What "not after" means for two entries whose qualities are not NaN. *)
Lemma not_after_meaning (x y : media_type) :
  media_type_cmp x y <> Gt ->
  dlt (quality x) (quality y) = false /\
  (dlt (quality y) (quality x) = false -> strcmp (type x) (type y) <> Gt).
Proof.
  unfold media_type_cmp, dgt.
  destruct (dlt (quality y) (quality x)) eqn:Hyx.
  - intros _. split; [|discriminate].
    destruct (dlt (quality x) (quality y)) eqn:Hxy; [|reflexivity].
    pose proof (dlt_trans _ _ _ Hxy Hyx) as H.
    now rewrite dlt_irrefl in H.
  - destruct (dlt (quality x) (quality y)); [congruence|]. auto.
Qed.

(** X9.  sort_media_types rearranges the entries, losing and adding
    none; and when no quality is NaN, of any two entries of the result the
    earlier one has no smaller quality, and if the qualities are equal its
    type does not come later in byte order. *)
Theorem sort_media_types_ranks (state : acceptnorm_state) :
  Permutation (sort_media_types state) state /\
  (Forall (fun e => is_nan (quality e) = false) state ->
   forall l1 x l2 y l3,
     sort_media_types state = (l1 ++ x :: l2 ++ y :: l3)%list ->
     dlt (quality x) (quality y) = false /\
     (dlt (quality y) (quality x) = false ->
      strcmp (type x) (type y) <> Gt)).
Proof.
  rewrite sort_media_types_qsort.
  split; [apply qsort_permutation|].
  intros Hn l1 x l2 y l3 E.
  rewrite Forall_forall in Hn.
  apply not_after_meaning.
  pose proof (qsort_ranked state) as Hr. rewrite E in Hr.
  apply ranked_suffix in Hr.
  apply (ranked_head (l2 ++ y :: l3) x); auto.
  - intros e He. apply Hn.
    apply (Permutation_in _ (qsort_permutation state)).
    rewrite E. apply in_or_app. now right.
  - apply in_or_app. right. now left.
Qed.

Lemma sort_media_types_ranks_witness :
  dlt (quality (mk_media_type "text/html" d_one))
      (quality (mk_media_type "*/*" q_0_8)) = false /\
  (dlt (quality (mk_media_type "*/*" q_0_8))
       (quality (mk_media_type "text/html" d_one)) = false ->
   strcmp (type (mk_media_type "text/html" d_one))
          (type (mk_media_type "*/*" q_0_8)) <> Gt).
Proof.
  refine (proj2 (sort_media_types_ranks
                   [mk_media_type "*/*" q_0_8;
                    mk_media_type "text/html" d_one;
                    mk_media_type "a/b" q_0_9]) _
            [] (mk_media_type "text/html" d_one)
            [mk_media_type "a/b" q_0_9] (mk_media_type "*/*" q_0_8) [] _).
  - repeat constructor.
  - vm_compute. reflexivity.
Defined.

(** X10.  When no quality is NaN and entries that [media_type_cmp] finds
    equal are the same entry, the result of sort_media_types is the only
    ranked arrangement of the entries: it does not depend on the procedure
    behind [qsort]. *)
Theorem sort_media_types_unique (state sorted : acceptnorm_state) :
  Forall (fun e => is_nan (quality e) = false) state ->
  (forall x y, In x state -> In y state ->
               media_type_cmp x y = Eq -> x = y) ->
  Permutation sorted state -> ranked sorted = true ->
  sorted = sort_media_types state.
Proof.
  intros Hn He Hp Hr. rewrite Forall_forall in Hn.
  rewrite sort_media_types_qsort.
  apply ranked_unique; auto using qsort_ranked.
  - apply Permutation_trans with state; [assumption|].
    apply Permutation_sym, qsort_permutation.
  - intros e H. apply Hn. now apply Permutation_in with sorted.
  - intros x y Hx Hy. apply He; now apply Permutation_in with sorted.
Qed.

Lemma sort_media_types_unique_witness :
  [mk_media_type "text/html" d_one; mk_media_type "*/*" q_0_8]
  = sort_media_types
      [mk_media_type "*/*" q_0_8; mk_media_type "text/html" d_one].
Proof.
  refine (sort_media_types_unique
            [mk_media_type "*/*" q_0_8; mk_media_type "text/html" d_one]
            [mk_media_type "text/html" d_one; mk_media_type "*/*" q_0_8]
            _ _ _ _).
  - repeat constructor.
  - intros x y [<-|[<-|[]]] [<-|[<-|[]]]; vm_compute; intros H;
      first [reflexivity | discriminate H].
  - apply perm_swap.
  - vm_compute. reflexivity.
Defined.

(* ================================================================== *)
(** * What the parser stores *)
(* ================================================================== *)

Lemma sound_quality_inside (q : double) :
  sound_quality q -> dlt q d_zero = false /\ dgt q d_one = false.
Proof.
  intros [H|H].
  - destruct q; try discriminate. split; reflexivity.
  - unfold in_unit_interval in H. apply andb_prop in H as [H0 H1].
    split; [now apply dge_not_dlt | unfold dgt; now apply dge_not_dlt].
Qed.

(** X11.  Whatever the header, the parsed list has at most 64 entries;
    every type in it is not empty, holds no [;] or [,], has no white space
    at either end and is in lower case; and no quality in it is below 0.0
    or above 1.0. *)
Theorem parse_accept_header_invariant (header : option string) :
  List.length (parse_accept_header header) <= MAX_MEDIA_TYPES /\
  Forall (fun e => wf_type (type e) = true /\
                   dlt (quality e) d_zero = false /\
                   dgt (quality e) d_one = false)
         (parse_accept_header header).
Proof.
  destruct header as [h|]; [|split; [simpl; lia | constructor]].
  unfold parse_accept_header.
  split; [apply parse_entries_length|].
  apply Forall_forall. intros e He. split.
  - now apply parse_entries_wf in He.
  - apply sound_quality_inside. now apply parse_entries_sound in He.
Qed.

(** X12.  quality never returns a value below 0.0 or above 1.0: the -1.0
    with which the lookup starts its two trackers never comes out, nor does
    an unclamped value. *)
Theorem quality_never_outside (h mt : option string) :
  dlt (vmod_quality h mt) d_zero = false /\
  dgt (vmod_quality h mt) d_one = false.
Proof. apply sound_quality_inside, vmod_quality_sound. Qed.

(* ================================================================== *)
(** * Reading back, with the capacity *)
(* ================================================================== *)

Lemma parse_entries_build_firstn (l : list media_type) :
  forall (room : nat) (e : media_type) (lead : string),
    Forall (fun x => wf_type (type x) = true /\
                     one_decimal (quality x) = true) (e :: l) ->
    all_of isspace lead = true ->
    parse_entries room (lead ++ entry_text e ++ build_rest l)
    = firstn room (e :: l).
Proof.
  induction l as [|e' l IH]; intros room e lead Hwf Hlead;
    (destruct room as [|room]; [reflexivity|]);
    pose proof (Forall_inv Hwf) as [Ht Hq].
  - cbn [parse_entries build_rest firstn].
    rewrite (parse_media_type_entry_text lead "" e Hlead Ht Hq
               (or_introl eq_refl)).
    cbn [after_comma]. rewrite parse_entries_empty.
    destruct (lead ++ entry_text e ++ "") eqn:E.
    + apply wf_type_parts in Ht as (Hs & _).
      destruct e as [ty q]. unfold entry_text in E. cbn [type] in *.
      destruct lead, ty; discriminate.
    + destruct e. now destruct room.
  - cbn [parse_entries build_rest].
    change (", " ++ entry_text e' ++ build_rest l)
      with (String "," (" " ++ entry_text e' ++ build_rest l)).
    rewrite (parse_media_type_entry_text lead _ e Hlead Ht Hq
               (or_intror (ex_intro _ _ eq_refl))).
    cbn [after_comma]. change (Ascii.eqb "," ",") with true. cbv iota.
    rewrite IH by (auto; now apply Forall_inv_tail in Hwf).
    destruct (lead ++ entry_text e ++ _) eqn:E.
    + apply wf_type_parts in Ht as (Hs & _).
      destruct e as [ty q]. unfold entry_text in E. cbn [type] in *.
      destruct lead, ty; discriminate.
    + now destruct e.
Qed.

(** X13.  Writing a list and parsing the text gives the list back, cut
    to its first 64 entries: for entries with well-formed types and with
    qualities among 0.0, 0.1, ..., 1.0, parse_accept_header after
    build_accept_string is the identity up to the capacity. *)
Theorem parse_after_build (state : acceptnorm_state) :
  Forall (fun e => wf_type (type e) = true /\
                   one_decimal (quality e) = true) state ->
  parse_accept_header (Some (build_accept_string state))
  = firstn MAX_MEDIA_TYPES state.
Proof.
  intros Hwf. unfold parse_accept_header.
  destruct state as [|e l]; [reflexivity|].
  apply (parse_entries_build_firstn l MAX_MEDIA_TYPES e "" Hwf eq_refl).
Qed.

Lemma parse_after_build_witness :
  parse_accept_header
    (Some (build_accept_string
             [mk_media_type "text/html" d_one; mk_media_type "*/*" q_0_8]))
  = firstn MAX_MEDIA_TYPES
      [mk_media_type "text/html" d_one; mk_media_type "*/*" q_0_8].
Proof.
  refine (parse_after_build
            [mk_media_type "text/html" d_one; mk_media_type "*/*" q_0_8] _).
  repeat constructor.
Defined.

(* ================================================================== *)
(** * canonicalize *)
(* ================================================================== *)

(** X14.  canonicalize returns the empty string exactly when the header
    holds no entry. *)
Theorem canonicalize_empty_iff (h : option string) :
  vmod_canonicalize h = "" <-> parse_accept_header h = [].
Proof.
  unfold vmod_canonicalize.
  destruct (absent h) eqn:Ha.
  - split; [|reflexivity]. intros _.
    destruct h as [[|c h]|]; try reflexivity. discriminate.
  - rewrite sort_media_types_qsort. split.
    + intros E.
      destruct (qsort (parse_accept_header h)) as [|x l] eqn:Eq.
      * pose proof (qsort_length (parse_accept_header h)) as Hl.
        rewrite Eq in Hl. now destruct (parse_accept_header h).
      * exfalso. revert E. apply build_accept_string_nonempty.
        assert (Hx : In x (parse_accept_header h)).
        { apply qsort_in. rewrite Eq. now left. }
        destruct h as [h|]; [|discriminate].
        apply parse_entries_wf in Hx.
        apply wf_type_parts in Hx as (Hs & _).
        destruct (type x); [discriminate Hs | discriminate].
    + intros ->. reflexivity.
Qed.

(* ================================================================== *)
(** * Letter case *)
(* ================================================================== *)

(** Decides a statement about one character by going through the 256. *)
Ltac by_characters c :=
  destruct c as [[] [] [] [] [] [] [] []]; reflexivity.

Lemma eq_separator_tolower (c : ascii) :
  is_eq_semi_or_comma (tolower c) = is_eq_semi_or_comma c.
Proof. by_characters c. Qed.

Lemma isdigit_tolower (c : ascii) : isdigit (tolower c) = isdigit c.
Proof. by_characters c. Qed.

Lemma isalpha_tolower (c : ascii) : isalpha (tolower c) = isalpha c.
Proof. by_characters c. Qed.

Lemma digit_of_tolower (base : N) (c : ascii) :
  digit_of base (tolower c) = digit_of base c.
Proof. by_characters c. Qed.

Lemma minus_tolower (c : ascii) : Ascii.eqb (tolower c) "-" = Ascii.eqb c "-".
Proof. by_characters c. Qed.

Lemma plus_tolower (c : ascii) : Ascii.eqb (tolower c) "+" = Ascii.eqb c "+".
Proof. by_characters c. Qed.

Lemma point_tolower (c : ascii) : Ascii.eqb (tolower c) "." = Ascii.eqb c ".".
Proof. by_characters c. Qed.

Lemma zero_tolower (c : ascii) : Ascii.eqb (tolower c) "0" = Ascii.eqb c "0".
Proof. by_characters c. Qed.

Lemma open_tolower (c : ascii) : Ascii.eqb (tolower c) "(" = Ascii.eqb c "(".
Proof. by_characters c. Qed.

Lemma close_tolower (c : ascii) : Ascii.eqb (tolower c) ")" = Ascii.eqb c ")".
Proof. by_characters c. Qed.

Lemma underscore_tolower (c : ascii) :
  Ascii.eqb (tolower c) "_" = Ascii.eqb c "_".
Proof. by_characters c. Qed.

Lemma semicolon_tolower (c : ascii) :
  Ascii.eqb (tolower c) ";" = Ascii.eqb c ";".
Proof. by_characters c. Qed.

Lemma equals_tolower (c : ascii) :
  Ascii.eqb (tolower c) "=" = Ascii.eqb c "=".
Proof. by_characters c. Qed.

Lemma comma_char_tolower (c : ascii) :
  Ascii.eqb (tolower c) "," = Ascii.eqb c ",".
Proof. by_characters c. Qed.

Lemma exponent_e_tolower (c : ascii) :
  Ascii.eqb (tolower c) "e" || Ascii.eqb (tolower c) "E"
  = Ascii.eqb c "e" || Ascii.eqb c "E".
Proof. by_characters c. Qed.

Lemma exponent_p_tolower (c : ascii) :
  Ascii.eqb (tolower c) "p" || Ascii.eqb (tolower c) "P"
  = Ascii.eqb c "p" || Ascii.eqb c "P".
Proof. by_characters c. Qed.

Lemma skip_ws_lowercase (s : string) :
  skip_ws (lowercase s) = lowercase (skip_ws s).
Proof.
  induction s as [|c s IH]; simpl; [reflexivity|].
  rewrite isspace_tolower. now destruct (isspace c).
Qed.

Lemma skip_space_lowercase (s : string) :
  skip_space (lowercase s) = lowercase (skip_space s).
Proof. apply skip_ws_lowercase. Qed.

Lemma scan_until_lowercase (stop : ascii -> bool) (s : string) :
  (forall c, stop (tolower c) = stop c) ->
  scan_until stop (lowercase s)
  = (lowercase (fst (scan_until stop s)), lowercase (snd (scan_until stop s))).
Proof.
  intros Hstop. induction s as [|c s IH]; simpl; [reflexivity|].
  rewrite Hstop. destruct (stop c); [reflexivity|].
  rewrite IH. now destruct (scan_until stop s).
Qed.

Lemma read_digits_lowercase (base : N) (s : string) (m : N) (n : nat) :
  read_digits base (lowercase s) m n = low_rest (read_digits base s m n).
Proof.
  revert m n. induction s as [|c s IH]; intros m n; simpl; [reflexivity|].
  rewrite digit_of_tolower.
  destruct (digit_of base c); [apply IH | reflexivity].
Qed.

Lemma read_mantissa_lowercase (base : N) (s : string) :
  read_mantissa base (lowercase s)
  = option_map low_rest (read_mantissa base s).
Proof.
  unfold read_mantissa. rewrite read_digits_lowercase.
  destruct (read_digits base s 0%N O) as [[m1 n1] s1].
  unfold low_rest at 1. cbn [fst snd].
  destruct s1 as [|c s2]; cbn [lowercase].
  - now destruct (n1 =? 0)%nat.
  - rewrite point_tolower. destruct (Ascii.eqb c ".").
    + rewrite read_digits_lowercase.
      destruct (read_digits base s2 m1 O) as [[m2 n2] s3].
      unfold low_rest at 1. cbn [fst snd].
      now destruct (n1 + n2 =? 0)%nat.
    + now destruct (n1 =? 0)%nat.
Qed.

Lemma read_exponent_lowercase (lo up : ascii) (s : string) :
  (forall c, Ascii.eqb (tolower c) lo || Ascii.eqb (tolower c) up
             = Ascii.eqb c lo || Ascii.eqb c up) ->
  read_exponent lo up (lowercase s) = low_rest (read_exponent lo up s).
Proof.
  intros Hmark. unfold read_exponent.
  destruct s as [|c s1]; [reflexivity|]. cbn [lowercase].
  rewrite Hmark. destruct (Ascii.eqb c lo || Ascii.eqb c up); [|reflexivity].
  assert (H : forall (neg : bool) (s2 : string),
             (let '(e, n, s3) := read_digits 10 (lowercase s2) 0%N O in
              if (n =? 0)%nat
              then (0%Z, String (tolower c) (lowercase s1))
              else ((if neg then - Z.of_N e else Z.of_N e)%Z, s3))
             = low_rest
                 (let '(e, n, s3) := read_digits 10 s2 0%N O in
                  if (n =? 0)%nat then (0%Z, String c s1)
                  else ((if neg then - Z.of_N e else Z.of_N e)%Z, s3))).
  { intros neg s2. rewrite read_digits_lowercase.
    destruct (read_digits 10 s2 0%N O) as [[e n] s3].
    unfold low_rest at 1. cbn [fst snd].
    now destruct (n =? 0)%nat. }
  destruct s1 as [|d s2]; [apply (H false "")|]. cbn [lowercase].
  rewrite minus_tolower, plus_tolower.
  destruct (Ascii.eqb d "-"); [apply (H true s2)|].
  destruct (Ascii.eqb d "+"); [apply (H false s2)|].
  apply (H false (String d s2)).
Qed.

Lemma match_nocase_lowercase (lit s : string) :
  match_nocase lit (lowercase s) = option_map lowercase (match_nocase lit s).
Proof.
  revert s. induction lit as [|l lit IH]; intros s; simpl; [reflexivity|].
  destruct s as [|c s]; [reflexivity|]. cbn [lowercase].
  rewrite tolower_tolower.
  destruct (Ascii.eqb (tolower c) l); [apply IH | reflexivity].
Qed.

Lemma read_nchars_lowercase (s : string) :
  read_nchars (lowercase s) = option_map lowercase (read_nchars s).
Proof.
  induction s as [|c s IH]; simpl; [reflexivity|].
  rewrite close_tolower, isdigit_tolower, isalpha_tolower, underscore_tolower.
  destruct (Ascii.eqb c ")"); [reflexivity|].
  destruct (isdigit c || isalpha c || Ascii.eqb c "_"); [apply IH|reflexivity].
Qed.

Lemma read_hex_lowercase (neg : bool) (s : string) :
  read_hex neg (lowercase s) = option_map low_rest (read_hex neg s).
Proof.
  unfold read_hex. destruct s as [|z [|x s1]]; try reflexivity.
  cbn [lowercase]. rewrite zero_tolower, tolower_tolower.
  destruct (Ascii.eqb z "0" && Ascii.eqb (tolower x) "x"); [|reflexivity].
  rewrite read_mantissa_lowercase.
  destruct (read_mantissa 16 s1) as [[[m n] s2]|]; [|reflexivity].
  cbn [option_map low_rest fst snd].
  rewrite (read_exponent_lowercase _ _ _ exponent_p_tolower).
  now destruct (read_exponent "p" "P" s2).
Qed.

Lemma read_dec_lowercase (neg : bool) (s : string) :
  read_dec neg (lowercase s) = option_map low_rest (read_dec neg s).
Proof.
  unfold read_dec. rewrite read_mantissa_lowercase.
  destruct (read_mantissa 10 s) as [[[m n] s2]|]; [|reflexivity].
  cbn [option_map low_rest fst snd].
  rewrite (read_exponent_lowercase _ _ _ exponent_e_tolower).
  now destruct (read_exponent "e" "E" s2).
Qed.

Lemma read_inf_lowercase (neg : bool) (s : string) :
  read_inf neg (lowercase s) = option_map low_rest (read_inf neg s).
Proof.
  unfold read_inf. rewrite match_nocase_lowercase.
  destruct (match_nocase "inf" s) as [s1|]; [|reflexivity].
  cbn [option_map]. rewrite match_nocase_lowercase.
  now destruct (match_nocase "inity" s1).
Qed.

Lemma read_nan_lowercase (s : string) :
  read_nan (lowercase s) = option_map low_rest (read_nan s).
Proof.
  unfold read_nan. rewrite match_nocase_lowercase.
  destruct (match_nocase "nan" s) as [s1|]; [|reflexivity].
  cbn [option_map].
  destruct s1 as [|c s2]; [reflexivity|]. cbn [lowercase].
  rewrite open_tolower. destruct (Ascii.eqb c "("); [|reflexivity].
  rewrite read_nchars_lowercase.
  now destruct (read_nchars s2).
Qed.

(** [strtod] reads the same value from a text and from its lower-case
    form, and stops at the same place. *)
Lemma strtod_lowercase (s : string) :
  strtod (lowercase s) = low_rest (strtod s).
Proof.
  unfold strtod. rewrite skip_space_lowercase.
  assert (H : forall (neg : bool) (s1 : string),
             match first_of (read_hex neg (lowercase s1))
                     (first_of (read_dec neg (lowercase s1))
                        (first_of (read_inf neg (lowercase s1))
                                  (read_nan (lowercase s1)))) with
             | Some r => r
             | None => (d_zero, lowercase s)
             end
             = low_rest
                 match first_of (read_hex neg s1)
                         (first_of (read_dec neg s1)
                            (first_of (read_inf neg s1) (read_nan s1))) with
                 | Some r => r
                 | None => (d_zero, s)
                 end).
  { intros neg s1.
    rewrite read_hex_lowercase, read_dec_lowercase, read_inf_lowercase,
      read_nan_lowercase.
    destruct (read_hex neg s1); [reflexivity|].
    destruct (read_dec neg s1); [reflexivity|].
    destruct (read_inf neg s1); [reflexivity|].
    destruct (read_nan s1); reflexivity. }
  destruct (skip_space s) as [|c s']; [apply (H false "")|].
  cbn [lowercase]. rewrite minus_tolower, plus_tolower.
  destruct (Ascii.eqb c "-"); [apply (H true s')|].
  destruct (Ascii.eqb c "+"); [apply (H false s')|].
  apply (H false (String c s')).
Qed.

Lemma parse_params_lowercase (fuel : nat) (p : string) (q : double) :
  parse_params fuel (lowercase p) q = low_rest (parse_params fuel p q).
Proof.
  revert p q. induction fuel as [|fuel IH]; intros p q; [reflexivity|].
  cbn [parse_params].
  destruct p as [|c p1]; [reflexivity|]. cbn [lowercase].
  rewrite semicolon_tolower. destruct (Ascii.eqb c ";"); [|reflexivity].
  rewrite skip_ws_lowercase,
    (scan_until_lowercase _ _ eq_separator_tolower).
  destruct (scan_until is_eq_semi_or_comma (skip_ws p1)) as [name p2].
  cbn [fst snd].
  assert (Hskip : forall p3,
             (let '(_, p4) := scan_until is_semi_or_comma (lowercase p3) in
              parse_params fuel p4 q)
             = low_rest (let '(_, p4) := scan_until is_semi_or_comma p3 in
                         parse_params fuel p4 q)).
  { intros p3. rewrite (scan_until_lowercase _ _ separator_tolower).
    destruct (scan_until is_semi_or_comma p3) as [val p4]. cbn [fst snd].
    apply IH. }
  destruct p2 as [|c2 p3]; [apply (IH "")|]. cbn [lowercase].
  rewrite equals_tolower.
  destruct (Ascii.eqb c2 "="); [|apply (IH (String c2 p3))].
  destruct name as [|n [|n' name]]; cbn [lowercase]; try apply Hskip.
  rewrite tolower_tolower.
  destruct (Ascii.eqb (tolower n) "q"); [|apply Hskip].
  rewrite skip_ws_lowercase, strtod_lowercase.
  destruct (strtod (skip_ws p3)) as [v p4]. cbn [low_rest fst snd].
  apply IH.
Qed.

Lemma parse_media_type_lowercase (p : string) :
  parse_media_type (lowercase p) = option_map low_rest (parse_media_type p).
Proof.
  unfold parse_media_type. rewrite skip_ws_lowercase.
  destruct (skip_ws p) as [|c p0]; [reflexivity|].
  change (String (tolower c) (lowercase p0)) with (lowercase (String c p0)).
  cbn [lowercase].
  change (String (tolower c) (lowercase p0)) with (lowercase (String c p0)).
  rewrite (scan_until_lowercase _ _ separator_tolower).
  destruct (scan_until is_semi_or_comma (String c p0)) as [tok p1].
  cbn [fst snd]. rewrite trim_end_lowercase.
  destruct (trim_end tok) as [|t0 t]; [reflexivity|].
  cbn [lowercase].
  rewrite tolower_tolower, lowercase_lowercase, length_lowercase,
    parse_params_lowercase.
  destruct (parse_params (S (String.length p1)) p1 d_one) as [q p2].
  cbn [low_rest fst snd option_map]. rewrite skip_ws_lowercase.
  destruct (skip_ws p2) as [|d p3]; [reflexivity|]. cbn [lowercase].
  rewrite comma_char_tolower. now destruct (Ascii.eqb d ",").
Qed.

Lemma parse_entries_lowercase (room : nat) (p : string) :
  parse_entries room (lowercase p) = parse_entries room p.
Proof.
  revert p. induction room as [|room IH]; intros p; [reflexivity|].
  cbn [parse_entries].
  destruct p as [|c p]; [reflexivity|].
  change (lowercase (String c p))
    with (String (tolower c) (lowercase p)) at 1.
  cbv iota.
  change (String (tolower c) (lowercase p)) with (lowercase (String c p)).
  rewrite parse_media_type_lowercase.
  destruct (parse_media_type (String c p)) as [[[ty q] rest]|];
    [|reflexivity].
  cbn [option_map low_rest fst snd]. now rewrite IH.
Qed.

Lemma preferred_loop_lowercase (fuel room : nat) (p : string) :
  preferred_loop fuel room (lowercase p) = preferred_loop fuel room p.
Proof.
  revert room p. induction fuel as [|fuel IH]; intros room p; [reflexivity|].
  destruct room as [|room]; [reflexivity|].
  cbn [preferred_loop].
  destruct p as [|c p]; [reflexivity|].
  change (lowercase (String c p))
    with (String (tolower c) (lowercase p)) at 1.
  cbv iota.
  change (String (tolower c) (lowercase p)) with (lowercase (String c p)).
  rewrite skip_ws_lowercase.
  destruct (skip_ws (String c p)) as [|d p0]; [reflexivity|].
  change (lowercase (String d p0))
    with (String (tolower d) (lowercase p0)) at 1.
  cbv iota.
  change (String (tolower d) (lowercase p0)) with (lowercase (String d p0)).
  rewrite (scan_until_lowercase _ _ comma_tolower).
  destruct (scan_until is_comma (String d p0)) as [tok p1]. cbn [fst snd].
  rewrite trim_end_lowercase.
  assert (Hnext : match lowercase p1 with
                  | String c0 r => if Ascii.eqb c0 "," then r else lowercase p1
                  | EmptyString => lowercase p1
                  end
                  = lowercase match p1 with
                              | String c0 r =>
                                  if Ascii.eqb c0 "," then r else p1
                              | EmptyString => p1
                              end).
  { destruct p1 as [|c1 r]; [reflexivity|]. cbn [lowercase].
    rewrite comma_char_tolower. now destruct (Ascii.eqb c1 ","). }
  rewrite Hnext.
  destruct (trim_end tok) as [|t0 t]; [apply IH|].
  cbn [lowercase].
  now rewrite tolower_tolower, lowercase_lowercase, IH.
Qed.

Lemma absent_lowercase (s : string) :
  absent (Some (lowercase s)) = absent (Some s).
Proof. now destruct s. Qed.

(** X15.  Letter case does not matter: the header and the preferred
    argument parse to the same lists as their lower-case forms, so
    canonicalize, filter, best_match, quality and accepts give the same
    result when their arguments are lower-cased. *)
Theorem letter_case_is_ignored (h p mt : string) :
  parse_accept_header (Some (lowercase h)) = parse_accept_header (Some h)
  /\ parse_preferred_types (Some (lowercase p))
     = parse_preferred_types (Some p)
  /\ vmod_canonicalize (Some (lowercase h)) = vmod_canonicalize (Some h)
  /\ vmod_filter (Some (lowercase h)) (Some (lowercase p))
     = vmod_filter (Some h) (Some p)
  /\ vmod_best_match (Some (lowercase h)) (Some (lowercase p))
     = vmod_best_match (Some h) (Some p)
  /\ vmod_quality (Some (lowercase h)) (Some (lowercase mt))
     = vmod_quality (Some h) (Some mt)
  /\ vmod_accepts (Some (lowercase h)) (Some (lowercase mt))
     = vmod_accepts (Some h) (Some mt).
Proof.
  assert (Hh : parse_accept_header (Some (lowercase h))
               = parse_accept_header (Some h))
    by apply parse_entries_lowercase.
  assert (Hp : parse_preferred_types (Some (lowercase p))
               = parse_preferred_types (Some p)).
  { unfold parse_preferred_types. rewrite length_lowercase.
    apply preferred_loop_lowercase. }
  assert (Hc : vmod_canonicalize (Some (lowercase h))
               = vmod_canonicalize (Some h)).
  { unfold vmod_canonicalize. now rewrite absent_lowercase, Hh. }
  assert (Hq : vmod_quality (Some (lowercase h)) (Some (lowercase mt))
               = vmod_quality (Some h) (Some mt)).
  { unfold vmod_quality. rewrite absent_lowercase, Hh.
    destruct mt as [|c mt]; [reflexivity|].
    change (lowercase (String c mt))
      with (String (tolower c) (lowercase mt)) at 1.
    cbv iota.
    change (String (tolower c) (lowercase mt)) with (lowercase (String c mt)).
    now rewrite lowercase_lowercase. }
  repeat split; auto.
  - unfold vmod_filter. now rewrite !absent_lowercase, Hh, Hp, Hc.
  - unfold vmod_best_match. now rewrite absent_lowercase, Hh, Hp.
  - unfold vmod_accepts. now rewrite Hq.
Qed.

(* ================================================================== *)
(** * The order of the header entries *)
(* ================================================================== *)

(** Two plain doubles neither of which is below the other are the same
    double. *)
Lemma double_tie_eq (a b : double) :
  plain_quality a = true -> plain_quality b = true ->
  dlt a b = false -> dlt b a = false -> a = b.
Proof.
  unfold dlt, SFltb.
  destruct a as [[]|[]| |[] m1 e1], b as [[]|[]| |[] m2 e2];
    simpl; try discriminate; try reflexivity; intros _ _;
    change (Pos.compare_cont Eq m1 m2) with (Pos.compare m1 m2);
    change (Pos.compare_cont Eq m2 m1) with (Pos.compare m2 m1);
    rewrite (Pos.compare_antisym m1 m2), (Z.compare_antisym e1 e2);
    destruct (Z.compare_spec e1 e2); simpl; try discriminate;
    destruct (Pos.compare_spec m1 m2); simpl; try discriminate;
    intros; subst; reflexivity.
Qed.

Lemma plain_quality_not_nan (q : double) :
  plain_quality q = true -> is_nan q = false.
Proof. destruct q as [[]|[]| |[]]; simpl; congruence. Qed.

(** Among entries with plain qualities only an entry compares equal to
    itself. *)
Lemma plain_entries_distinct (x y : media_type) :
  plain_quality (quality x) = true -> plain_quality (quality y) = true ->
  media_type_cmp x y = Eq -> x = y.
Proof.
  intros Hx Hy H. apply media_type_cmp_eq in H as (Hxy & Hyx & Ht).
  destruct x as [tx qx], y as [ty qy]. cbn [type quality] in *.
  subst ty. f_equal. now apply double_tie_eq.
Qed.

Lemma canonicalize_of_entries (h : option string) :
  vmod_canonicalize h = build_accept_string (qsort (parse_accept_header h)).
Proof.
  unfold vmod_canonicalize. rewrite sort_media_types_qsort.
  destruct h as [[|c h]|]; reflexivity.
Qed.

(** X16.  canonicalize gives the same text for two headers that hold the
    same entries in a different order, when no quality is NaN or the
    negative zero: the order in which a client lists its types does not
    reach the cache key. *)
Theorem canonicalize_ignores_entry_order (h1 h2 : option string) :
  Forall (fun e => plain_quality (quality e) = true)
         (parse_accept_header h1) ->
  Permutation (parse_accept_header h1) (parse_accept_header h2) ->
  vmod_canonicalize h1 = vmod_canonicalize h2.
Proof.
  intros Hplain Hperm. rewrite Forall_forall in Hplain.
  rewrite !canonicalize_of_entries. f_equal.
  assert (Hp : Permutation (qsort (parse_accept_header h1))
                           (qsort (parse_accept_header h2))).
  { apply Permutation_trans with (parse_accept_header h1);
      [apply qsort_permutation|].
    apply Permutation_trans with (parse_accept_header h2);
      [assumption | apply Permutation_sym, qsort_permutation]. }
  apply ranked_unique; auto using qsort_ranked.
  - intros e He. apply plain_quality_not_nan, Hplain. now apply qsort_in.
  - intros x y Hx Hy. apply plain_entries_distinct;
      apply Hplain; now apply qsort_in.
Qed.

Lemma canonicalize_ignores_entry_order_witness :
  vmod_canonicalize (Some "*/*;q=0.1, text/html, image/png;q=0.5")
  = vmod_canonicalize (Some "image/png;q=0.5 , */*;q=0.1,Text/HTML").
Proof.
  refine (canonicalize_ignores_entry_order
            (Some "*/*;q=0.1, text/html, image/png;q=0.5")
            (Some "image/png;q=0.5 , */*;q=0.1,Text/HTML") _ _).
  - vm_compute. repeat constructor.
  - vm_compute.
    apply Permutation_trans
      with [mk_media_type "*/*" q_0_1; mk_media_type "image/png" q_0_5;
            mk_media_type "text/html" d_one].
    + apply perm_skip, perm_swap.
    + apply perm_swap.
Defined.

(** The quality of a preferred type is the start value or that of a
    matching entry that lies above the start value. *)
Lemma match_quality_attained_above (types : acceptnorm_state) (pref : string)
    (q : double) :
  match_quality types pref q = q \/
  exists e, In e types /\ media_type_match (type e) pref = true /\
            quality e = match_quality types pref q /\
            dlt q (match_quality types pref q) = true.
Proof.
  revert q. induction types as [|x types IH]; simpl; intros q; [now left|].
  assert (Hlift : forall q0 r,
            (exists e, In e types /\ media_type_match (type e) pref = true /\
                       quality e = r /\ dlt q0 r = true) ->
            dlt q q0 = true \/ q = q0 ->
            exists e, (x = e \/ In e types) /\
                      media_type_match (type e) pref = true /\
                      quality e = r /\ dlt q r = true).
  { intros q0 r (e & He & Hm & Hq & Hlt) Hq0. exists e.
    repeat split; auto.
    destruct Hq0 as [Hq0| ->]; [now apply dlt_trans with q0 | assumption]. }
  destruct (media_type_match (type x) pref) eqn:Hm.
  - destruct (dgt (quality x) q) eqn:Hg.
    + right. destruct (IH (quality x)) as [E|H].
      * exists x. rewrite E. auto.
      * apply (Hlift (quality x)); auto.
    + destruct (IH q) as [E|H]; [now left|]. right.
      apply (Hlift q); auto.
  - destruct (IH q) as [E|H]; [now left|]. right. apply (Hlift q); auto.
Qed.

Lemma above_zero_plain (s : double) :
  dlt d_zero s = true -> plain_quality s = true.
Proof.
  unfold dlt, SFltb, d_zero.
  destruct s as [[]|[]| |[]]; simpl; congruence.
Qed.

Lemma score_plain (state : acceptnorm_state) (pref : string) :
  plain_quality (score state pref) = true.
Proof.
  unfold score.
  destruct (match_quality_attained_above state pref d_zero)
    as [->|(e & _ & _ & _ & Hlt)]; [reflexivity|].
  now apply above_zero_plain.
Qed.

(** The quality computed for a preferred type depends on the header
    entries, not on their order. *)
Lemma score_permutation (s1 s2 : acceptnorm_state) (pref : string) :
  Permutation s1 s2 -> score s1 pref = score s2 pref.
Proof.
  intros Hp.
  assert (Hle : forall a b, Permutation a b ->
             dlt (score a pref) (score b pref) = false).
  { intros a b Hab. unfold score.
    destruct (match_quality_attained_above b pref d_zero)
      as [E|(e & He & Hm & Hq & _)].
    - rewrite E. apply dge_not_dlt. apply (score_nonneg a pref).
    - rewrite <- Hq.
      apply (match_quality_upper a pref d_zero e eq_refl); [|exact Hm].
      apply Permutation_in with b; [now apply Permutation_sym | exact He]. }
  apply double_tie_eq; auto using score_plain, Permutation_sym.
Qed.

Lemma filter_loop_permutation (s1 s2 : acceptnorm_state)
    (prefs : list string) :
  Permutation s1 s2 ->
  forall room, filter_loop s1 prefs room = filter_loop s2 prefs room.
Proof.
  intros Hp. induction prefs as [|t prefs IH]; intros room; [reflexivity|].
  destruct room as [|room]; [reflexivity|].
  cbn [filter_loop]. fold (score s1 t) (score s2 t).
  rewrite (score_permutation _ _ t Hp).
  destruct (dgt (score s2 t) d_zero); [f_equal|]; apply IH.
Qed.

Lemma best_loop_permutation (s1 s2 : acceptnorm_state)
    (prefs : list string) :
  Permutation s1 s2 ->
  forall bt bq, best_loop s1 prefs bt bq = best_loop s2 prefs bt bq.
Proof.
  intros Hp. induction prefs as [|t prefs IH]; intros bt bq; [reflexivity|].
  cbn [best_loop]. fold (score s1 t) (score s2 t).
  rewrite (score_permutation _ _ t Hp).
  destruct (dgt (score s2 t) bq); apply IH.
Qed.

Lemma prefer_loop_permutation (s1 s2 : acceptnorm_state)
    (prefs : list string) :
  Permutation s1 s2 -> prefer_loop s1 prefs = prefer_loop s2 prefs.
Proof.
  intros Hp. induction prefs as [|t prefs IH]; [reflexivity|].
  cbn [prefer_loop].
  rewrite <- !accepted_by_score, (score_permutation _ _ t Hp), IH.
  reflexivity.
Qed.

(** X17.  filter, best_match and prefer look at the header entries as a
    set: for two non-empty headers that hold the same entries in a
    different order and a non-empty preferred argument, filter and
    best_match return the same text, and prefer returns the same preferred
    type or, finding none, each header as it is.  (quality does depend on
    the order, through its wildcard trackers.) *)
Theorem negotiation_ignores_entry_order (h1 h2 p : string) :
  h1 <> "" -> h2 <> "" -> p <> "" ->
  Permutation (parse_accept_header (Some h1))
              (parse_accept_header (Some h2)) ->
  vmod_filter (Some h1) (Some p) = vmod_filter (Some h2) (Some p)
  /\ vmod_best_match (Some h1) (Some p) = vmod_best_match (Some h2) (Some p)
  /\ (vmod_prefer (Some h1) (Some p) = vmod_prefer (Some h2) (Some p)
      \/ (vmod_prefer (Some h1) (Some p) = h1 /\
          vmod_prefer (Some h2) (Some p) = h2)).
Proof.
  intros H1 H2 Hp Hperm.
  assert (A1 : absent (Some h1) = false)
    by (destruct h1; [contradiction|reflexivity]).
  assert (A2 : absent (Some h2) = false)
    by (destruct h2; [contradiction|reflexivity]).
  assert (Ap : absent (Some p) = false)
    by (destruct p; [contradiction|reflexivity]).
  split; [|split].
  - unfold vmod_filter. rewrite A1, A2, Ap.
    now rewrite (filter_loop_permutation _ _ _ Hperm).
  - unfold vmod_best_match.
    destruct (parse_preferred_types (Some p)) as [|first rest];
      [reflexivity|].
    rewrite A1, A2.
    now rewrite (best_loop_permutation _ _ _ Hperm).
  - unfold vmod_prefer.
    destruct h1 as [|c1 h1]; [contradiction|].
    destruct h2 as [|c2 h2]; [contradiction|].
    destruct (parse_preferred_types (Some p)) as [|first rest]; [auto|].
    rewrite (prefer_loop_permutation _ _ _ Hperm).
    destruct (prefer_loop _ _); auto.
Qed.

Lemma negotiation_ignores_entry_order_witness :
  vmod_filter (Some "text/*;q=0.5, image/png") (Some "text/html, image/png")
  = vmod_filter (Some "image/png, text/*;q=0.5") (Some "text/html, image/png").
Proof.
  refine (proj1 (negotiation_ignores_entry_order
                   "text/*;q=0.5, image/png" "image/png, text/*;q=0.5"
                   "text/html, image/png" _ _ _ _)).
  - discriminate.
  - discriminate.
  - discriminate.
  - vm_compute. apply perm_swap.
Defined.

(* ================================================================== *)
(** * The parser advances *)
(* ================================================================== *)

Lemma scan_until_lengths (stop : ascii -> bool) (p : string) :
  String.length (fst (scan_until stop p))
  + String.length (snd (scan_until stop p)) = String.length p.
Proof.
  induction p as [|c p IH]; simpl; [reflexivity|].
  destruct (stop c); [reflexivity|].
  destruct (scan_until stop p) as [tok r]. simpl in *. lia.
Qed.

Lemma trim_end_length (s : string) :
  String.length (trim_end s) <= String.length s.
Proof.
  induction s as [|c s IH]; simpl; [lia|].
  destruct (trim_end s); [destruct (isspace c)|]; simpl in *; lia.
Qed.

Lemma parse_params_length (fuel : nat) (p : string) (q : double) :
  String.length (snd (parse_params fuel p q)) <= String.length p.
Proof.
  revert p q. induction fuel as [|fuel IH]; intros p q; [simpl; lia|].
  cbn [parse_params].
  destruct p as [|c p1]; [simpl; lia|].
  destruct (Ascii.eqb c ";"); [|simpl; lia].
  pose proof (skip_ws_length p1) as Hs.
  pose proof (scan_until_length is_eq_semi_or_comma (skip_ws p1)) as Hn.
  destruct (scan_until is_eq_semi_or_comma (skip_ws p1)) as [name p2].
  simpl in Hn.
  assert (Hskip : forall p3 q0, String.length p3 <= String.length p1 ->
             String.length
               (snd (let '(_, p4) := scan_until is_semi_or_comma p3 in
                     parse_params fuel p4 q0))
             <= String.length (String c p1)).
  { intros p3 q0 H3.
    pose proof (scan_until_length is_semi_or_comma p3) as Hv.
    destruct (scan_until is_semi_or_comma p3) as [val p4]. simpl in Hv.
    specialize (IH p4 q0). simpl. lia. }
  destruct p2 as [|c2 p3]; [specialize (IH "" q); simpl in *; lia|].
  simpl in Hn.
  destruct (Ascii.eqb c2 "=");
    [|specialize (IH (String c2 p3) q); simpl in *; lia].
  destruct name as [|n [|n' name]]; try (apply Hskip; lia).
  destruct (Ascii.eqb (tolower n) "q"); [|apply Hskip; lia].
  pose proof (strtod_length (skip_ws p3)) as Hv.
  pose proof (skip_ws_length p3) as Hs3.
  destruct (strtod (skip_ws p3)) as [v p4]. simpl in Hv.
  specialize (IH p4 (clamp v)). simpl. lia.
Qed.

(** X18.  Every entry that [parse_media_type] returns takes up at least
    one character of the input: the position it hands back lies strictly
    further, so the loop of [parse_accept_header] cannot stay in place. *)
Theorem parse_media_type_advances (p ty rest : string) (q : double) :
  parse_media_type p = Some (ty, q, rest) ->
  String.length rest < String.length p.
Proof.
  unfold parse_media_type.
  pose proof (skip_ws_length p) as H0.
  destruct (skip_ws p) as [|c p0]; [discriminate|].
  pose proof (scan_until_lengths is_semi_or_comma (String c p0)) as H1.
  destruct (scan_until is_semi_or_comma (String c p0)) as [tok p1].
  cbn [fst snd] in H1.
  pose proof (trim_end_length tok) as H2.
  destruct (trim_end tok) as [|t0 t]; [discriminate|].
  pose proof (parse_params_length (S (String.length p1)) p1 d_one) as H3.
  destruct (parse_params (S (String.length p1)) p1 d_one) as [q' p2].
  cbn [snd] in H3.
  pose proof (skip_ws_length p2) as H4.
  intros E. injection E as _ _ <-.
  simpl in H2.
  destruct (skip_ws p2) as [|d p3]; [simpl in *; lia|].
  destruct (Ascii.eqb d ","); simpl in *; lia.
Qed.

Lemma parse_media_type_advances_witness :
  String.length " image/png" < String.length "Text/HTML ; q=0.5, image/png".
Proof.
  refine (parse_media_type_advances
            "Text/HTML ; q=0.5, image/png" "text/html" " image/png" q_0_5 _).
  vm_compute. reflexivity.
Defined.

(* ================================================================== *)
(** * White space in front of the header *)
(* ================================================================== *)

Lemma parse_entries_leading_space (ws h : string) (room : nat) :
  all_of isspace ws = true ->
  parse_entries room (ws ++ h) = parse_entries room h.
Proof.
  intros Hws. destruct room as [|room]; [reflexivity|].
  cbn [parse_entries].
  assert (Hm : parse_media_type (ws ++ h) = parse_media_type h).
  { unfold parse_media_type. now rewrite (skip_ws_spaces _ _ Hws). }
  rewrite Hm.
  destruct h as [|c h].
  - rewrite append_empty_r.
    assert (Hnone : parse_media_type "" = None) by reflexivity.
    rewrite Hnone. now destruct ws.
  - destruct (ws ++ String c h) eqn:E; [|reflexivity].
    destruct ws; discriminate.
Qed.

(** X19.  White space in front of the header changes nothing in what is
    parsed, so canonicalize, quality and accepts are the same with and
    without it; a header of white space only parses to no entry and
    canonicalizes to the empty string. *)
Theorem leading_space_is_skipped (ws h : string) (mt : option string) :
  all_of isspace ws = true ->
  parse_accept_header (Some (ws ++ h)) = parse_accept_header (Some h)
  /\ vmod_canonicalize (Some (ws ++ h)) = vmod_canonicalize (Some h)
  /\ vmod_quality (Some (ws ++ h)) mt = vmod_quality (Some h) mt
  /\ vmod_accepts (Some (ws ++ h)) mt = vmod_accepts (Some h) mt
  /\ vmod_canonicalize (Some ws) = "".
Proof.
  intros Hws.
  assert (Hp : parse_accept_header (Some (ws ++ h))
               = parse_accept_header (Some h))
    by now apply parse_entries_leading_space.
  assert (Hq : vmod_quality (Some (ws ++ h)) mt = vmod_quality (Some h) mt).
  { unfold vmod_quality. rewrite Hp.
    destruct (absent (Some (ws ++ h))) eqn:A1;
      destruct (absent (Some h)) eqn:A2; try reflexivity.
    - destruct ws; [cbn [append] in A1; congruence|discriminate].
    - destruct h; [|discriminate].
      destruct mt as [[|c mt]|]; reflexivity. }
  split; [exact Hp|]. split; [|split; [exact Hq|split]].
  - rewrite !canonicalize_of_entries. now rewrite Hp.
  - unfold vmod_accepts. now rewrite Hq.
  - rewrite canonicalize_of_entries.
    rewrite <- (append_empty_r ws).
    unfold parse_accept_header.
    now rewrite (parse_entries_leading_space ws "" _ Hws).
Qed.

Lemma leading_space_is_skipped_witness :
  vmod_canonicalize (Some ("  " ++ "b/c;q=0.5, a/b"))
  = vmod_canonicalize (Some "b/c;q=0.5, a/b").
Proof.
  refine (proj1 (proj2 (leading_space_is_skipped
                          "  " "b/c;q=0.5, a/b" None _))).
  reflexivity.
Defined.

(* ================================================================== *)
(** * The canonical text read again *)
(* ================================================================== *)

(** X20.  For a header whose qualities are all among 0.0, 0.1, ..., 1.0,
    the text canonicalize returns parses to the entries of the header in
    ranked order: nothing is lost or altered on the way through the
    text. *)
Theorem canonical_text_parses_to_ranked_entries (h : option string) :
  Forall (fun e => one_decimal (quality e) = true) (parse_accept_header h) ->
  parse_accept_header (Some (vmod_canonicalize h))
  = sort_media_types (parse_accept_header h).
Proof.
  intros Hq. rewrite Forall_forall in Hq.
  rewrite canonicalize_of_entries, sort_media_types_qsort.
  unfold parse_accept_header at 1.
  apply parse_entries_build_accept_string.
  - intros x Hx. apply (proj1 (qsort_in _ _)) in Hx.
    split; [|now apply Hq].
    destruct h as [h|]; [|destruct Hx]. now apply parse_entries_wf in Hx.
  - rewrite qsort_length. destruct h as [h|]; [|simpl; lia].
    apply parse_entries_length.
Qed.

Lemma canonical_text_parses_to_ranked_entries_witness :
  parse_accept_header
    (Some (vmod_canonicalize (Some "*/*;q=0.8, Text/HTML")))
  = sort_media_types (parse_accept_header (Some "*/*;q=0.8, Text/HTML")).
Proof.
  refine (canonical_text_parses_to_ranked_entries
            (Some "*/*;q=0.8, Text/HTML") _).
  vm_compute. repeat constructor.
Defined.
